(** * shorten: a URL shortener over an embedded key/value store

    Shallow embedding of the server in [main.go]: the resolver [Serve], the
    minter [Mint] and one cycle of the sweeper [Expirer], over a model of
    the store transactions they run in, followed by the properties of the
    specification that can be stated over it. Then the rest of the server,
    [withAuth], [RandHex] and the loop of [Expirer], and [Shorten] of the
    client, with what the code shows of them. *)

From Stdlib Require Import ZArith String Ascii List Lia.
From Stdlib Require Import DecimalString DecimalZ.
From stdpp Require Import base option gmap strings list fin_maps.

Local Open Scope string_scope.
Local Open Scope Z_scope.

(** ** Strings as byte sequences *)

(** [len(s)] of Go: the number of bytes. *)
Definition len (s : string) : Z := Z.of_nat (String.length s).

(** [strings.IndexByte(s, c) >= 0]. *)
Fixpoint containsByte (s : string) (c : ascii) : bool :=
  match s with
  | EmptyString => false
  | String d r => if Ascii.eqb d c then true else containsByte r c
  end.

(** [strings.TrimLeft(s, cutset)]: [s] without its leading characters that
    occur in [cutset]. The model works on bytes, which is what Go does for
    a cutset of ASCII characters; the server's only cutset is the one
    character '/'. *)
Fixpoint TrimLeft (s cutset : string) : string :=
  match s with
  | EmptyString => EmptyString
  | String c r => if containsByte cutset c then TrimLeft r cutset else s
  end.

(** ** [strconv.FormatInt] *)

Definition digits : string := "0123456789abcdefghijklmnopqrstuvwxyz".

(** [digits[n]]. *)
Definition digit (n : Z) : ascii :=
  match String.get (Z.to_nat n) digits with
  | Some c => c
  | None => "0"%char
  end.

(** The general case of [formatBits]:
    [for u >= b { i--; q := u / b; a[i] = digits[u-q*b]; u = q }]
    and then [i--; a[i] = digits[u]]. The buffer [a] has room for 64 digits,
    which bounds the number of turns. *)
Fixpoint formatBits_loop (turns : nat) (b u : Z) (a : string) : string :=
  match turns with
  | O => a
  | S turns' =>
      if b <=? u
      then let q := u / b in
           formatBits_loop turns' b q (String (digit (u - q * b)) a)
      else String (digit u) a
  end.

(** [formatBits(nil, u, base, neg, false)] for a base that is neither 10 nor
    a power of two; those two cases are faster paths to the same string. *)
Definition formatBits (u : Z) (base : Z) (neg : bool) : string :=
  let u := if neg then (- u) mod 2 ^ 64 else u in
  let a := formatBits_loop 64 base u EmptyString in
  if neg then String "-"%char a else a.

(** [strconv.FormatInt(i, base)], [i] an int64. Go panics when [base] is not
    within 2..36; the server calls it with 36 only. *)
Definition FormatInt (i : Z) (base : Z) : string :=
  formatBits (i mod 2 ^ 64) base (i <? 0).

(** ** Time *)

(** A [time.Time] is the instant it denotes, in nanoseconds since the Unix
    epoch; a [time.Duration] is a number of nanoseconds. *)
Definition Time := Z.
Definition Duration := Z.

Definition Hour : Duration := 3600 * 1000000000.

(** [t.Before(u)] and [t.Add(d)]. *)
Definition Before (t u : Time) : bool := t <? u.
Definition Add (t : Time) (d : Duration) : Time := t + d.

(** [time.Time{}]: the first instant of the year 1. *)
Definition zeroTime : Time := -62135596800 * 1000000000.

(** ** Errors *)

Inductive error :=
  | ErrTxNotWritable
  | ErrBucketNameRequired
  | ErrKeyRequired
  | ErrKeyTooLarge
  | ErrValueTooLarge
  | ErrJSON (what : string)
  | ErrForm (what : string)
  | Errorf (context : string) (cause : error).

(** ** The record stored under a token *)

Record Key := mkKey { Url : string; Expiry : Time }.

(** [&Key{}] *)
Definition emptyKey : Key := {| Url := ""; Expiry := zeroTime |}.

(** [encoding/json] as the server uses it. [json_Marshal k] is
    [json.Marshal(k)]; [json_Unmarshal data] is [json.Unmarshal(data, keyObj)]
    for a fresh [keyObj := &Key{}]: the object afterwards (what was filled
    in before a failure included) and the error. The encoding itself is
    left open. *)
Class JSON := {
  json_Marshal : Key -> error + string;
  json_Unmarshal : string -> Key * option error
}.

(** The one law asked of the encoding: what [json_Marshal] produces decodes
    to the same record. *)
Class JSONLaws (J : JSON) : Prop :=
  json_roundtrip : forall k data,
    json_Marshal k = inr data -> json_Unmarshal data = (k, None).

(** ** HTTP *)

Definition StatusOK : Z := 200.
Definition StatusMovedPermanently : Z := 301.
Definition StatusBadRequest : Z := 400.
Definition StatusNotFound : Z := 404.
Definition StatusInternalServerError : Z := 500.

(** The part of [*http.Request] the handlers read. [ParseForm] is the result
    of [req.ParseForm()], [FormValue] is [req.FormValue]. *)
Record Request := mkRequest {
  URL_Path : string;
  ParseForm : option error;
  FormValue : string -> string
}.

(** The calls a handler makes on its [http.ResponseWriter], in order. *)
Inductive RwCall :=
  | RwNotFound                                (* http.NotFound(rw, req) *)
  | RwError (msg : string) (code : Z)         (* http.Error(rw, msg, code) *)
  | RwRedirect (url : string) (code : Z)      (* http.Redirect(rw, req, url, code) *)
  | RwWriteHeader (code : Z)                  (* rw.WriteHeader(code) *)
  | RwWrite (body : string).                  (* fmt.Fprint(rw, body) *)

(** The lines written to the process log. *)
Inductive LogLine :=
  | LogAccess (req : Request) (at_ : Time) (status : Z)   (* httpLog *)
  | LogCorrupted (keyStr key : string)
  | LogExpired (keyStr : string)
  | LogViewError (err : error)
  | LogParsingForm (err : error)
  | LogMissingUrl
  | LogUpdateError (err : error)
  | LogBadJson (k : string) (err : error)
  | LogExpiredCount (n : Z)
  | LogExpirerError (err : error).

(** ** The world a handler runs in *)

(** A bolt database: the buckets of the root, each a map from keys to
    values. *)
Abbreviation BucketData := (gmap string string).
Abbreviation DB := (gmap string (gmap string string)).

(** [wall] lists the successive readings of [time.Now()] and [source] the
    successive outputs of the process-wide random source; [ticks] and
    [draws] count the readings and outputs consumed so far. *)
Record State := mkState {
  db : DB;
  wall : nat -> Time;
  ticks : nat;
  source : nat -> Z;
  draws : nat;
  logs : list LogLine;
  rw : list RwCall
}.

Definition set_db (d : DB) (s : State) : State :=
  mkState d (wall s) (ticks s) (source s) (draws s) (logs s) (rw s).

(** Computations that read and change the world. *)
Definition M (A : Type) : Type := State -> A * State.

#[global] Instance M_ret : MRet M := fun A a s => (a, s).
#[global] Instance M_bind : MBind M :=
  fun A B f m s => let '(a, s') := m s in f a s'.

(** The world after [m]. *)
Definition exec {A} (m : M A) (s : State) : State := snd (m s).

Definition skip : M unit := mret tt.

(** The reading the next call of [time.Now()] returns. *)
Definition now (s : State) : Time := wall s (ticks s).

Definition time_Now : M Time := fun s =>
  (now s, mkState (db s) (wall s) (S (ticks s)) (source s) (draws s) (logs s) (rw s)).

(** [rand.Int63()]: the low 63 bits of the source's next output
    ([int64(rng.Uint64() & rngMask)]). *)
Definition rngMask : Z := 2 ^ 63 - 1.

Definition rand_Int63 : M Z := fun s =>
  (Z.land (source s (draws s)) rngMask,
   mkState (db s) (wall s) (ticks s) (source s) (S (draws s)) (logs s) (rw s)).

Definition log_Print (l : LogLine) : M unit := fun s =>
  (tt, mkState (db s) (wall s) (ticks s) (source s) (draws s) (logs s ++ [l])%list (rw s)).

Definition respond (c : RwCall) : M unit := fun s =>
  (tt, mkState (db s) (wall s) (ticks s) (source s) (draws s) (logs s) (rw s ++ [c])%list).

Definition http_NotFound : M unit := respond RwNotFound.
Definition http_Error (msg : string) (code : Z) : M unit := respond (RwError msg code).
Definition http_Redirect (url : string) (code : Z) : M unit := respond (RwRedirect url code).
Definition WriteHeader (code : Z) : M unit := respond (RwWriteHeader code).
Definition Fprint (body : string) : M unit := respond (RwWrite body).

(** [httpLog(status, req)]: one access-log line, stamped with [time.Now()]. *)
Definition httpLog (status : Z) (req : Request) : M unit :=
  t ← time_Now; log_Print (LogAccess req t status).

(** ** Bolt transactions *)

Definition MaxKeySize : Z := 32768.
Definition MaxValueSize : Z := 2 ^ 31 - 2.

Record Tx := mkTx { writable : bool }.

(** A [*bolt.Bucket]: the transaction it belongs to and its name in the
    root. *)
Record Bucket := mkBucket { b_tx : Tx; b_name : string }.

(** What bucket [name] holds under [key]. *)
Definition stored (d : DB) (name key : string) : option string :=
  d !! name ≫= (fun m : gmap string string => m !! key).

(** [tx.Bucket(name)]: [nil] when there is no such bucket. *)
Definition tx_Bucket (tx : Tx) (name : string) : M (option Bucket) := fun s =>
  (match db s !! name with
   | Some _ => Some (mkBucket tx name)
   | None => None
   end, s).

(** [tx.CreateBucketIfNotExists(name)] *)
Definition CreateBucketIfNotExists (tx : Tx) (name : string) : M (error + Bucket) := fun s =>
  if negb (writable tx) then (inl ErrTxNotWritable, s)
  else if len name =? 0 then (inl ErrBucketNameRequired, s)
  else match db s !! name with
       | Some _ => (inr (mkBucket tx name), s)
       | None => (inr (mkBucket tx name), set_db (<[name := ∅]> (db s)) s)
       end.

(** [b.Get(key)]: [nil] when the key is absent. A [nil] key is the empty
    key. *)
Definition Get (b : Bucket) (key : string) : M (option string) := fun s =>
  (stored (db s) (b_name b) key, s).

(** [b.Put(key, value)] *)
Definition Put (b : Bucket) (key value : string) : M (option error) := fun s =>
  if negb (writable (b_tx b)) then (Some ErrTxNotWritable, s)
  else if len key =? 0 then (Some ErrKeyRequired, s)
  else if MaxKeySize <? len key then (Some ErrKeyTooLarge, s)
  else if MaxValueSize <? len value then (Some ErrValueTooLarge, s)
  else (None, set_db (alter (insert key value) (b_name b) (db s)) s).

(** [b.Delete(key)]: removing an absent key is not an error. *)
Definition Delete (b : Bucket) (key : string) : M (option error) := fun s =>
  if negb (writable (b_tx b)) then (Some ErrTxNotWritable, s)
  else (None, set_db (alter (delete key) (b_name b) (db s)) s).

(** A loop [for _, x := range l { body }] whose body assigns the variables
    [a]. *)
Fixpoint forRange {A B} (l : list B) (body : B -> A -> M A) (a : A) : M A :=
  match l with
  | [] => mret a
  | x :: l' => a' ← body x a; forRange l' body a'
  end.

(** [for _, k := range keys { b.Delete(k) }]; what [Delete] returns is
    dropped. *)
Definition Delete_all (b : Bucket) (keys : list string) : M unit :=
  forRange keys (fun k _ => _ ← Delete b k; mret tt) tt.

(** [b.ForEach(fn)] for an [fn] that always returns [nil]: [fn] is run on
    every pair of the bucket; [a] stands for the variables of the caller
    that [fn] assigns. Bolt visits the keys in byte order, the model in the
    order of [map_to_list]. *)
Definition ForEach {A} (b : Bucket) (fn : string -> string -> A -> M A) (a : A) : M A :=
  fun s =>
    match db s !! b_name b with
    | Some m => forRange (map_to_list m) (fun kv => fn kv.1 kv.2) a s
    | None => (a, s)
    end.

(** [db.View(fn)]: [fn] runs in a read-only transaction, which is rolled
    back when [fn] returns. Failures of the engine itself (the file, the
    disk) are outside the model, here and in [Update]: a transaction fails
    through the error [fn] returns only. *)
Definition View (fn : Tx -> M (option error)) : M (option error) := fun s =>
  let '(err, s') := fn (mkTx false) s in
  (err, set_db (db s) s').

(** [db.Update(fn)]: [fn] runs in a writable transaction, committed when
    [fn] returns [nil] and rolled back when it returns an error. [a] stands
    for the variables of the caller that [fn] assigns: they keep what [fn]
    gave them whatever the outcome. *)
Definition Update {A} (fn : Tx -> A -> M (A * option error)) (a : A) : M (A * option error) :=
  fun s =>
    let '((a', err), s') := fn (mkTx true) a s in
    match err with
    | Some e => ((a', Some e), set_db (db s) s')
    | None => ((a', None), s')
    end.

(** ** The resolver *)

Section Server.
Context `{JSON}.

(** The function [Serve] runs in [db.View]. *)
Definition Serve_tx (req : Request) (tx : Tx) : M (option error) :=
  keyBucket ← tx_Bucket tx "keys";
  match keyBucket with
  | None =>
      httpLog StatusNotFound req;;
      http_NotFound;;
      mret None
  | Some keyBucket =>
      let keyStr := TrimLeft (URL_Path req) "/" in
      key ← Get keyBucket keyStr;
      match key with
      | None =>
          httpLog StatusNotFound req;;
          http_NotFound;;
          mret None
      | Some key =>
          let '(keyObj, err) := json_Unmarshal key in
          match err with
          | Some _ =>
              log_Print (LogCorrupted keyStr key);;
              httpLog StatusInternalServerError req;;
              http_Error "internal server error" StatusInternalServerError;;
              mret None
          | None =>
              t ← time_Now;
              (if Before (Expiry keyObj) t
               then log_Print (LogExpired keyStr);;
                    httpLog StatusNotFound req;;
                    http_NotFound
               else skip);;
              httpLog StatusMovedPermanently req;;
              http_Redirect (Url keyObj) StatusMovedPermanently;;
              mret None
          end
      end
  end.

Definition Serve (req : Request) : M unit :=
  err ← View (Serve_tx req);
  match err with
  | Some e =>
      log_Print (LogViewError e);;
      httpLog StatusInternalServerError req;;
      http_Error "internal server error" StatusInternalServerError
  | None => skip
  end.

(** ** The minter *)

(** The function [Mint] runs in [db.Update]; [key] is the variable of [Mint]
    it assigns. *)
Definition Mint_tx (url : string) (tx : Tx) (key : string) : M (string * option error) :=
  r ← CreateBucketIfNotExists tx "urls";
  match r with
  | inl err => mret (key, Some (Errorf "opening bucket `urls`" err))
  | inr urlBucket =>
      r ← CreateBucketIfNotExists tx "keys";
      match r with
      | inl err => mret (key, Some (Errorf "opening bucket `keys`" err))
      | inr keyBucket =>
          keyId ← Get urlBucket url;
          let key := match keyId with Some k => k | None => key end in
          keyBytes ← Get keyBucket (default "" keyId);
          let keyObj :=
            match keyBytes with
            | Some data =>
                let '(o, err) := json_Unmarshal data in
                match err with Some _ => emptyKey | None => o end
            | None => emptyKey
            end in
          let keyObj := {| Url := url; Expiry := Expiry keyObj |} in
          t ← time_Now;
          let keyObj := {| Url := Url keyObj; Expiry := Add t (Hour * 24 * 30) |} in
          match json_Marshal keyObj with
          | inl err => mret (key, Some (Errorf "marshaling to JSON" err))
          | inr keyBytes =>
              err ← Put urlBucket url key;
              match err with
              | Some err => mret (key, Some (Errorf "saving to urls" err))
              | None =>
                  err ← Put keyBucket key keyBytes;
                  match err with
                  | Some err => mret (key, Some (Errorf "saving to keys" err))
                  | None => mret (key, None)
                  end
              end
          end
      end
  end.

Definition Mint (req : Request) : M unit :=
  match ParseForm req with
  | Some err =>
      log_Print (LogParsingForm err);;
      httpLog StatusBadRequest req;;
      http_Error "could not parse form data" StatusBadRequest
  | None =>
      let url := FormValue req "url" in
      if decide (url = "")
      then log_Print LogMissingUrl;;
           httpLog StatusBadRequest req;;
           http_Error "missing `url`" StatusBadRequest
      else
        n ← rand_Int63;
        let key := FormatInt n 36 in
        '(key, err) ← Update (Mint_tx url) key;
        (match err with
         | Some e =>
             log_Print (LogUpdateError e);;
             httpLog StatusInternalServerError req;;
             http_Error "internal server error" StatusInternalServerError
         | None => skip
         end);;
        WriteHeader StatusOK;;
        Fprint key
  end.

(** ** The sweeper *)

(** What the function given to [keyBucket.ForEach] does with one pair; it
    assigns [keyDeletes] and [urlDeletes]. [time.Now()] is read only when
    the value decodes. *)
Definition Expirer_visit (k v : string) (dels : list string * list string)
  : M (list string * list string) :=
  let '(keyDeletes, urlDeletes) := dels in
  let '(keyObj, err) := json_Unmarshal v in
  gone ← (match err with
          | Some _ => mret true
          | None => t ← time_Now; mret (Before (Expiry keyObj) t)
          end : M bool);
  if gone : bool
  then (match err with
        | Some e => log_Print (LogBadJson k e)
        | None => skip
        end);;
       mret ((keyDeletes ++ [k])%list, (urlDeletes ++ [Url keyObj])%list)
  else mret (keyDeletes, urlDeletes).

(** The function [Expirer] runs in [db.Update]. *)
Definition Expirer_tx (tx : Tx) (_ : unit) : M (unit * option error) :=
  keyBucket ← tx_Bucket tx "keys";
  match keyBucket with
  | None => mret (tt, None)
  | Some keyBucket =>
      '(keyDeletes, urlDeletes) ← ForEach keyBucket Expirer_visit ([], []);
      Delete_all keyBucket keyDeletes;;
      (if 0 <? Z.of_nat (length keyDeletes)
       then log_Print (LogExpiredCount (Z.of_nat (length keyDeletes)))
       else skip);;
      urlBucket ← tx_Bucket tx "urls";
      (match urlBucket with
       | Some urlBucket => Delete_all urlBucket urlDeletes
       | None => skip
       end);;
      mret (tt, None)
  end.

(** One turn of the loop of [Expirer], up to its [time.Sleep(time.Minute)]. *)
Definition Expirer_cycle : M unit :=
  '(_, err) ← Update Expirer_tx tt;
  match err with
  | Some e => log_Print (LogExpirerError e)
  | None => skip
  end.

End Server.

(** ** The vocabulary of the specification *)

(** What a string over [digits] denotes in base 36, most significant digit
    first; [None] when a character is not one of the 36 digits. Used only to
    state that a token is the rendering of a number. *)
Definition digitValue (c : ascii) : option Z :=
  let n := Z.of_nat (nat_of_ascii c) in
  if (48 <=? n) && (n <=? 57) then Some (n - 48)
  else if (97 <=? n) && (n <=? 122) then Some (n - 97 + 10)
  else None.

Fixpoint base36_from (acc : Z) (s : string) : option Z :=
  match s with
  | EmptyString => Some acc
  | String c r =>
      match digitValue c with
      | Some d => base36_from (acc * 36 + d) r
      | None => None
      end
  end.

Definition base36_value (s : string) : option Z :=
  match s with
  | EmptyString => None
  | _ => base36_from 0 s
  end.

Definition is_base36_digit (c : ascii) : bool :=
  match digitValue c with Some _ => true | None => false end.

Fixpoint all_chars (p : ascii -> bool) (s : string) : bool :=
  match s with
  | EmptyString => true
  | String c r => p c && all_chars p r
  end.

(** The string of [n] slashes. *)
Fixpoint slashes (n : nat) : string :=
  match n with
  | O => EmptyString
  | S n' => String "/" (slashes n')
  end.

Definition starts_with_slash (s : string) : bool :=
  match s with
  | String c _ => Ascii.eqb "/" c
  | EmptyString => false
  end.

(** Bolt refuses the empty key ([ErrKeyRequired]), so no bucket holds one. *)
Definition bolt_wf (d : DB) : Prop := forall name, stored d name "" = None.

(** The clock does not run backwards. *)
Definition monotone_wall (w : nat -> Time) : Prop :=
  forall i j : nat, (i <= j)%nat -> w i <= w j.

Definition monotone (s : State) : Prop := monotone_wall (wall s).

Section Vocabulary.
Context `{JSON}.

(** The stored value [v] is due at time [tau]: it does not decode, or its
    expiry is before [tau]. *)
Definition due (tau : Time) (v : string) : Prop :=
  match json_Unmarshal v with
  | (_, Some _) => True
  | (o, None) => Before (Expiry o) tau = true
  end.

(** [v] is due at one of the readings [a], ..., [b - 1] of the clock. *)
Definition due_within (w : nat -> Time) (a b : nat) (v : string) : Prop :=
  match json_Unmarshal v with
  | (_, Some _) => True
  | (o, None) => exists i : nat, (a <= i < b)%nat /\ Before (Expiry o) (w i) = true
  end.

(** The binding of URLs to tokens agrees with the records, as far as the
    records unexpired at [tau] go: a URL bound to a token whose record
    decodes and has not expired is the target of that record. *)
Definition binding_inv (tau : Time) (d : DB) : Prop :=
  forall u t v keyObj,
    stored d "urls" u = Some t ->
    stored d "keys" t = Some v ->
    json_Unmarshal v = (keyObj, None) ->
    Before (Expiry keyObj) tau = false ->
    Url keyObj = u.

End Vocabulary.

(** ** A concrete encoding

    An instance of [JSON] to run the server on examples: a record is written
    as its URL, every character behind a [u], then [t] and the expiry in
    decimal. Like [time.Time.MarshalJSON], encoding fails for an expiry
    outside the years 0 to 9999. *)
Module Plain.

Definition showTime (t : Time) : string := NilEmpty.string_of_int (Z.to_int t).

Definition readTime (s : string) : option Time :=
  match NilEmpty.int_of_string s with
  | Some d => Some (Z.of_int d)
  | None => None
  end.

Fixpoint encodeKey (url : string) (t : Time) : string :=
  match url with
  | EmptyString => String "t" (showTime t)
  | String c r => String "u" (String c (encodeKey r t))
  end.

Fixpoint decodeKey (data : string) : Key * option error :=
  match data with
  | EmptyString => (emptyKey, Some (ErrJSON "unexpected end of input"))
  | String m r =>
      if Ascii.eqb m "u" then
        match r with
        | EmptyString => (emptyKey, Some (ErrJSON "unexpected end of input"))
        | String c r' =>
            let '(k, e) := decodeKey r' in
            ({| Url := String c (Url k); Expiry := Expiry k |}, e)
        end
      else if Ascii.eqb m "t" then
        match readTime r with
        | Some t => ({| Url := ""; Expiry := t |}, None)
        | None => (emptyKey, Some (ErrJSON "cannot parse the expiry"))
        end
      else (emptyKey, Some (ErrJSON "invalid character"))
  end.

(** The first instant of the year 0 and of the year 10000. *)
Definition year0 : Time := -62167219200 * 1000000000.
Definition year10000 : Time := 253402300800 * 1000000000.

Definition Marshal (k : Key) : error + string :=
  if (Expiry k <? year0) || (year10000 <=? Expiry k)
  then inl (ErrJSON "Time.MarshalJSON: year outside of range [0,9999]")
  else inr (encodeKey (Url k) (Expiry k)).

#[export] Instance json : JSON :=
  {| json_Marshal := Marshal; json_Unmarshal := decodeKey |}.

End Plain.

(** ** Worlds to run the server in *)

Module Demo.
Import Plain.

(** A clock that starts in October 2018 and advances by a second at every
    reading, and a random source that keeps giving the number that is
    written [abc] in base 36. *)
Definition clock (n : nat) : Time := (1540000000 + Z.of_nat n) * 1000000000.

Definition fresh : State :=
  {| db := ∅; wall := clock; ticks := 0; source := fun _ => 13368; draws := 0;
     logs := []; rw := [] |}.

Definition mint (url : string) : Request :=
  {| URL_Path := "/mint"; ParseForm := None;
     FormValue := fun k => if String.eqb k "url" then url else "" |}.

Definition visit (path : string) : Request :=
  {| URL_Path := path; ParseForm := None; FormValue := fun _ => "" |}.

(** The same world [d] nanoseconds later, with an empty response. *)
Definition later (d : Duration) (s : State) : State :=
  {| db := db s; wall := fun n => wall s n + d; ticks := ticks s;
     source := source s; draws := draws s; logs := logs s; rw := [] |}.

(** After [http://a] was minted. *)
Definition minted : State := exec (Mint (mint "http://a")) fresh.

(** Thirty-one days after that. *)
Definition stale : State := later (Hour * 24 * 31) minted.

(** A store with a record that expired a second ago, a value that is not a
    record, and a record with an hour to go. *)
Definition shelf : State :=
  {| db := {[ "keys" := {[ "old" := Plain.encodeKey "http://old" (clock 0 - 1000000000);
                           "bad" := "not json";
                           "new" := Plain.encodeKey "http://new" (clock 0 + Hour) ]};
              "urls" := {[ "http://old" := "old";
                           "http://bad" := "bad";
                           "http://new" := "new" ]} ]};
     wall := clock; ticks := 0; source := fun _ => 13368; draws := 0;
     logs := []; rw := [] |}.

(** A URL of 32769 bytes, one more than bolt takes as a key. *)
Definition long_url : string := string_of_list_ascii (repeat "a"%char (Z.to_nat 32769)).

End Demo.

(** ** Authentication *)

Definition StatusUnauthorized : Z := 401.

(** [s[:n]] and [s[n:]]. *)
Fixpoint str_take (n : nat) (s : string) : string :=
  match n, s with
  | S n', String c r => String c (str_take n' r)
  | _, _ => EmptyString
  end.

Fixpoint str_drop (n : nat) (s : string) : string :=
  match n, s with
  | S n', String _ r => str_drop n' r
  | _, _ => s
  end.

(** [strings.Index(s, sep)]: where [sep] first occurs in [s], or -1. *)
Fixpoint Index (s sep : string) : Z :=
  if String.prefix sep s then 0
  else match s with
       | EmptyString => -1
       | String _ r => let i := Index r sep in if i <? 0 then -1 else i + 1
       end.

(** [strings.Count(s, sep)] for a [sep] that is not empty: the occurrences
    of [sep] in [s] that do not overlap. Every turn of its loop drops a byte
    of [s] at least. *)
Fixpoint Count_loop (turns : nat) (s sep : string) : Z :=
  match turns with
  | O => 0
  | S turns' =>
      let i := Index s sep in
      if i <? 0 then 0
      else 1 + Count_loop turns' (str_drop (Z.to_nat i + String.length sep) s) sep
  end.

Definition Count (s sep : string) : Z := Count_loop (S (String.length s)) s sep.

(** The loop of [genSplit]:
    [for i < n { m := Index(s, sep); if m < 0 { break }; a[i] = s[:m];
    s = s[m+len(sep):]; i++ }] and then [a[i] = s]. *)
Fixpoint genSplit_loop (turns : nat) (s sep : string) : list string :=
  match turns with
  | O => [s]
  | S turns' =>
      let m := Index s sep in
      if m <? 0 then [s]
      else str_take (Z.to_nat m) s
           :: genSplit_loop turns' (str_drop (Z.to_nat m + String.length sep) s) sep
  end.

(** [explode(s, n)], on bytes: the characters of [s] one by one, [n] pieces
    at most, the last one taking what is left. *)
Fixpoint explode_loop (turns : nat) (s : string) : list string :=
  match turns, s with
  | S turns', String c r => String c EmptyString :: explode_loop turns' r
  | _, _ => [s]
  end.

Definition explode (s : string) (n : Z) : list string :=
  let l := len s in
  let n := if (n <? 0) || (l <? n) then l else n in
  if n =? 0 then [] else explode_loop (Z.to_nat (n - 1)) s.

(** [strings.SplitN(s, sep, n)]: [s] cut at [sep] in [n] pieces at most
    (all of them when [n] is negative, none when it is 0). For an empty
    [sep] Go cuts between UTF-8 characters, the model between bytes; the
    server's separator is one space. *)
Definition SplitN (s sep : string) (n : Z) : list string :=
  if n =? 0 then []
  else if len sep =? 0 then explode s n
  else let n := if n <? 0 then Count s sep + 1 else n in
       genSplit_loop (Z.to_nat (n - 1)) s sep.

(** [strings.ToLower(s)], on bytes: the letters A to Z become a to z. Go
    lowers the letters beyond ASCII as well; none of them becomes a letter
    of [bearer], so that the comparison [withAuth] makes comes out the
    same. *)
Definition lowerByte (c : ascii) : ascii :=
  let n := nat_of_ascii c in
  if (65 <=? n)%nat && (n <=? 90)%nat then ascii_of_nat (n + 32) else c.

Fixpoint ToLower (s : string) : string :=
  match s with
  | EmptyString => EmptyString
  | String c r => String (lowerByte c) (ToLower r)
  end.

(** A request as [withAuth] reads it: its headers, [Header_Get] being
    [req.Header.Get], around what the handlers behind it read. *)
Record Guarded := mkGuarded {
  Header_Get : string -> string;
  inner : Request
}.

(** [withAuth(secret, f)]: [f] behind the check of the bearer secret. *)
Definition withAuth (secret : string) (f : Request -> M unit) (req : Guarded) : M unit :=
  let auth := Header_Get req "authorization" in
  let components := SplitN auth " " 2 in
  if negb (Z.of_nat (length components) =? 2)
     || negb (String.eqb (ToLower (nth 0 components "")) "bearer")
     || negb (String.eqb (nth 1 components "") secret)
  then httpLog StatusUnauthorized (inner req);;
       http_Error "unauthorized" StatusUnauthorized
  else f (inner req).

(** ** The random secret *)

(** The loop of [rand.Read]: seven bytes are taken from every number drawn,
    the lowest first. [pos] counts the bytes left in [val]; both are 0 at
    the first use after [rand.Seed], which is where [main] is when it calls
    [RandHex]. *)
Fixpoint rand_read (n : nat) (pos : nat) (val : Z) : M (list Z) :=
  match n with
  | O => mret []
  | S n' =>
      '(pos, val) ← (if (pos =? 0)%nat
                     then v ← rand_Int63; mret (7%nat, v)
                     else mret (pos, val));
      rest ← rand_read n' (pos - 1) (Z.shiftr val 8);
      mret (val mod 256 :: rest)
  end.

(** [rand.Read(data)] for a slice of [n] bytes: the bytes, their number and
    the error, which is always [nil]. *)
Definition rand_Read (n : nat) : M (list Z * Z * option error) :=
  data ← rand_read n 0 0;
  mret (data, Z.of_nat (length data), None).

Definition ldigits : string := "0123456789abcdef".

Definition ldigit (n : Z) : ascii :=
  match String.get (Z.to_nat n) ldigits with
  | Some c => c
  | None => "0"%char
  end.

Fixpoint hex (data : list Z) : string :=
  match data with
  | [] => EmptyString
  | b :: r => String (ldigit (Z.shiftr b 4)) (String (ldigit (Z.land b 15)) (hex r))
  end.

(** [fmt.Sprintf("%02x", data)] for a slice of bytes: two digits for every
    byte; the width pads an empty slice to two zeros. *)
Definition Sprintf_02x (data : list Z) : string :=
  match data with
  | [] => "00"
  | _ => hex data
  end.

(** [RandHex(bytes)]; on the left what it panics with. *)
Definition RandHex (bytes : nat) : M (string + string) :=
  '(data, n, err) ← rand_Read bytes;
  match err with
  | Some _ => mret (inl "could not get random bytes")
  | None =>
      if negb (n =? Z.of_nat bytes)
      then mret (inl "could not get enough random bytes")
      else mret (inr (Sprintf_02x data))
  end.

(** A digit of [ldigits]. *)
Definition is_hex_digit (c : ascii) : bool := containsByte ldigits c.

(** Byte [i] of [v], the lowest being byte 0. *)
Definition byte_of (v : Z) (i : nat) : Z := Z.shiftr v (8 * Z.of_nat i) mod 256.

(** ** The loop of the sweeper *)

Definition Minute : Duration := 60 * 1000000000.

(** [time.Sleep(d)]: time passes, which the later readings of the clock
    tell; nothing else changes. *)
Definition time_Sleep (d : Duration) : M unit := skip.

Section Loop.
Context `{JSON}.

(** The first [turns] turns of [Expirer], which never returns. *)
Fixpoint Expirer (turns : nat) : M unit :=
  match turns with
  | O => skip
  | S turns' => Expirer_cycle;; time_Sleep Minute;; Expirer turns'
  end.

End Loop.

(** ** The server in service *)

(** The status an answer goes out with, for the calls that fix one. *)
Definition status_of (c : RwCall) : option Z :=
  match c with
  | RwNotFound => Some StatusNotFound
  | RwError _ code => Some code
  | RwRedirect _ code => Some code
  | RwWriteHeader code => Some code
  | RwWrite _ => None
  end.

(** The status an access-log line carries. *)
Definition access_status (l : LogLine) : option Z :=
  match l with
  | LogAccess _ _ status => Some status
  | _ => None
  end.

(** A token as [Mint] makes them: one to thirteen digits of base 36. *)
Definition token_wf (t : string) : Prop :=
  (0 < String.length t <= 13)%nat /\ all_chars is_base36_digit t = true.

(** Every URL is bound to such a token. *)
Definition tokens_wf (d : DB) : Prop :=
  forall u t, stored d "urls" u = Some t -> token_wf t.

(** What the server does once [main] has set it up: it answers a request
    with [Serve], answers one with [Mint] behind [withAuth], or makes a turn
    of the loop of [Expirer]. They are taken one after the other here; bolt
    runs the transactions that write one at a time. *)
Inductive Event :=
  | Resolve (req : Request)
  | Create (req : Guarded)
  | Sweep.

Section Service.
Context `{JSON}.

Definition handle (secret : string) (e : Event) : M unit :=
  match e with
  | Resolve req => Serve req
  | Create req => withAuth secret Mint req
  | Sweep => Expirer_cycle
  end.

Fixpoint service (secret : string) (es : list Event) : M unit :=
  match es with
  | [] => skip
  | e :: es' => handle secret e;; service secret es'
  end.

End Service.

(** * The client

    The second program of the repository, which replaces the URLs of a text
    by short ones: [Shorten] asks the server's [/mint] for a token and
    remembers the answer. *)

Module Client.

(** ** [net/url] *)

Definition upperhex : string := "0123456789ABCDEF".

Definition upperdigit (n : Z) : ascii :=
  match String.get (Z.to_nat n) upperhex with
  | Some c => c
  | None => "0"%char
  end.

(** [shouldEscape(c, encodeQueryComponent)]: letters, digits and the four
    marks [-_.~] stand for themselves, everything else is escaped. *)
Definition shouldEscape (c : ascii) : bool :=
  let n := Z.of_nat (nat_of_ascii c) in
  if ((97 <=? n) && (n <=? 122)) || ((65 <=? n) && (n <=? 90))
     || ((48 <=? n) && (n <=? 57))
  then false
  else negb (containsByte "-_.~" c).

(** [url.QueryEscape(s)]: a space becomes [+], any other byte to escape
    [%] and its two hexadecimal digits in upper case. *)
Fixpoint QueryEscape (s : string) : string :=
  match s with
  | EmptyString => EmptyString
  | String c r =>
      if Ascii.eqb c " " then String "+" (QueryEscape r)
      else if shouldEscape c
      then let n := Z.of_nat (nat_of_ascii c) in
           String "%" (String (upperdigit (Z.shiftr n 4))
                         (String (upperdigit (Z.land n 15)) (QueryEscape r)))
      else String c (QueryEscape r)
  end.

(** [url.Values{"url": []string{subject}}.Encode()] *)
Definition Encode_url (subject : string) : string :=
  "url=" +:+ QueryEscape subject.

(** [pbUrl.String()] for the URL [Shorten] builds: scheme [https], host
    [p-b.us], path [mint], which gets its slash for being behind a host,
    and the query. *)
Definition pbUrl_String (subject : string) : string :=
  "https://p-b.us/mint?" +:+ Encode_url subject.

(** [ishex] and [unhex] of [net/url]. *)
Definition unhex (c : ascii) : option Z :=
  let n := Z.of_nat (nat_of_ascii c) in
  if (48 <=? n) && (n <=? 57) then Some (n - 48)
  else if (97 <=? n) && (n <=? 102) then Some (n - 97 + 10)
  else if (65 <=? n) && (n <=? 70) then Some (n - 65 + 10)
  else None.

(** [url.QueryUnescape(s)], which the server's [ParseForm] reads a query
    with: [+] is a space and [%] with two hexadecimal digits the byte they
    write; [None] stands for the error on a [%] without its two digits. *)
Fixpoint QueryUnescape (s : string) : option string :=
  match s with
  | EmptyString => Some EmptyString
  | String c r =>
      if Ascii.eqb c "%" then
        match r with
        | String h (String l r') =>
            match unhex h, unhex l, QueryUnescape r' with
            | Some a, Some b, Some t =>
                Some (String (ascii_of_nat (Z.to_nat (Z.lor (Z.shiftl a 4) b))) t)
            | _, _, _ => None
            end
        | _ => None
        end
      else
        match QueryUnescape r with
        | Some t => Some (String (if Ascii.eqb c "+" then " "%char else c) t)
        | None => None
        end
  end.

(** ** The world of the client *)

(** A request as [Shorten] sends it, and what comes back from
    [http.DefaultClient.Do] and [ioutil.ReadAll]: an error of [Do], or a
    response with its status and either its body or the error of reading
    it. *)
Record Sent := mkSent {
  Method : string;
  RawURL : string;
  Authorization : string
}.

Inductive Reply :=
  | DoError (err : string)
  | Response (StatusCode : Z) (body : string + string).

Inductive Line :=
  | LogSendError (err : string)
  | LogReadError (err : string)
  | LogNon2XX (body : string).

(** [cache] is the map of the program; [remote] tells what the network
    answers to the request sent after [n] others; [sent] lists the
    requests sent so far. *)
Record World := mkWorld {
  cache : gmap string string;
  remote : nat -> Sent -> Reply;
  sent : list Sent;
  printed : list Line
}.

(** ** [Shorten]

    Run on its own: the locks of [cacheMu] are not modelled. On the left the
    value returned, on the right the world after the call.
    [http.NewRequest] fails on a method or a URL that does not parse, which
    [GET] and a URL with an escaped query are not. *)
Definition Shorten (key subject : string) (w : World) : string * World :=
  match cache w !! subject with
  | Some ret => (ret, w)
  | None =>
      let req := {| Method := "GET"; RawURL := pbUrl_String subject;
                    Authorization := "bearer " +:+ key |} in
      let w1 := mkWorld (cache w) (remote w) (sent w ++ [req])%list (printed w) in
      match remote w (length (sent w)) req with
      | DoError err =>
          (subject, mkWorld (cache w1) (remote w1) (sent w1)
                            (printed w1 ++ [LogSendError err])%list)
      | Response StatusCode (inl err) =>
          (subject, mkWorld (cache w1) (remote w1) (sent w1)
                            (printed w1 ++ [LogReadError err])%list)
      | Response StatusCode (inr body) =>
          if negb (Z.quot StatusCode 100 =? 2)
          then (subject, mkWorld (cache w1) (remote w1) (sent w1)
                                 (printed w1 ++ [LogNon2XX body])%list)
          else let ret := "https://p-b.us/" +:+ body in
               (ret, mkWorld (<[subject := ret]> (cache w1)) (remote w1) (sent w1)
                             (printed w1))
      end
  end.

(** The request as the server's [withAuth] reads it. *)
Definition received (r : Sent) (form : Request) : Guarded :=
  {| Header_Get := fun h => if String.eqb (ToLower h) "authorization"
                            then Authorization r else "";
     inner := form |}.

End Client.

(** ** More worlds *)

Module Cases.
Import Plain Demo.

(** A request with [value] as its authorization header. *)
Definition bearing (value : string) (form : Request) : Guarded :=
  {| Header_Get := fun h => if String.eqb (ToLower h) "authorization" then value else "";
     inner := form |}.

(** A store whose one record has an hour to go. *)
Definition tidy : State :=
  {| db := {[ "keys" := {[ "new" := Plain.encodeKey "http://new" (clock 0 + Hour) ]};
              "urls" := {[ "http://new" := "new" ]} ]};
     wall := clock; ticks := 0; source := fun _ => 13368; draws := 0;
     logs := []; rw := [] |}.

(** A client that has asked for nothing yet, with a server that answers
    every request with the token [abc], and with one that refuses. *)
Definition served : Client.World :=
  {| Client.cache := ∅;
     Client.remote := fun _ _ => Client.Response 200 (inr "abc");
     Client.sent := []; Client.printed := [] |}.

Definition refused : Client.World :=
  {| Client.cache := ∅;
     Client.remote := fun _ _ => Client.Response 401 (inr "unauthorized");
     Client.sent := []; Client.printed := [] |}.

End Cases.

(** * Properties *)

(** ** Strings *)

Lemma TrimLeft_slashes n t :
  starts_with_slash t = false -> TrimLeft (slashes n +:+ t) "/" = t.
Proof.
  intros Ht. induction n as [|n IH]; simpl.
  - destruct t as [|c r]; simpl in *; [done|]. by rewrite Ht.
  - exact IH.
Qed.

Lemma TrimLeft_only_slashes n : TrimLeft (slashes n) "/" = "".
Proof. induction n; simpl; auto. Qed.

(** ** The store *)

Lemma stored_Some d name key v :
  stored d name key = Some v <-> exists m, d !! name = Some m /\ m !! key = Some v.
Proof.
  unfold stored. destruct (d !! name) as [m|]; simpl; split.
  - eauto.
  - by intros (m' & [= <-] & ?).
  - done.
  - by intros (m' & ? & ?).
Qed.

Lemma stored_None_bucket d name key : d !! name = None -> stored d name key = None.
Proof. unfold stored. by intros ->. Qed.

Ltac run :=
  unfold exec, View, Update, httpLog, http_NotFound, http_Error,
    http_Redirect, WriteHeader, Fprint, respond, log_Print, time_Now,
    rand_Int63, tx_Bucket, Get, skip, mbind, M_bind, mret, M_ret in *;
  simpl in *.

Section Resolver.
Context `{JSON}.

Lemma Serve_db req s : db (exec (Serve req) s) = db s.
Proof.
  unfold Serve, Serve_tx. run.
  repeat (case_match; simpl in *; simplify_eq); done.
Qed.

(** A transaction that was writable would be left as it was found, too. *)
Lemma Serve_tx_db req tx s : db (exec (Serve_tx req tx) s) = db s.
Proof.
  unfold Serve_tx. run.
  repeat (case_match; simpl in *; simplify_eq); done.
Qed.

Lemma Serve_absent req s :
  stored (db s) "keys" (TrimLeft (URL_Path req) "/") = None ->
  rw (exec (Serve req) s) = (rw s ++ [RwNotFound])%list.
Proof.
  intros Hv. unfold Serve, Serve_tx. run.
  destruct (db s !! "keys") as [m|] eqn:Hm; simpl; [|done].
  by rewrite Hv.
Qed.

Lemma Serve_corrupt req s v partial e :
  stored (db s) "keys" (TrimLeft (URL_Path req) "/") = Some v ->
  json_Unmarshal v = (partial, Some e) ->
  rw (exec (Serve req) s)
  = (rw s ++ [RwError "internal server error" StatusInternalServerError])%list.
Proof.
  intros Hv Hk. unfold Serve, Serve_tx. run.
  destruct (proj1 (stored_Some _ _ _ _) Hv) as (m & Hm & _). rewrite Hm. simpl.
  by rewrite Hv, Hk.
Qed.

Lemma Serve_live req s v k :
  stored (db s) "keys" (TrimLeft (URL_Path req) "/") = Some v ->
  json_Unmarshal v = (k, None) ->
  Before (Expiry k) (now s) = false ->
  rw (exec (Serve req) s)
  = (rw s ++ [RwRedirect (Url k) StatusMovedPermanently])%list.
Proof.
  intros Hv Hk Hb. unfold Serve, Serve_tx. run.
  destruct (proj1 (stored_Some _ _ _ _) Hv) as (m & Hm & _). rewrite Hm. simpl.
  rewrite Hv, Hk. simpl. by rewrite Hb.
Qed.

Lemma Serve_expired req s v k :
  stored (db s) "keys" (TrimLeft (URL_Path req) "/") = Some v ->
  json_Unmarshal v = (k, None) ->
  Before (Expiry k) (now s) = true ->
  rw (exec (Serve req) s)
  = (rw s ++ [RwNotFound; RwRedirect (Url k) StatusMovedPermanently])%list.
Proof.
  intros Hv Hk Hb. unfold Serve, Serve_tx. run.
  destruct (proj1 (stored_Some _ _ _ _) Hv) as (m & Hm & _). rewrite Hm. simpl.
  rewrite Hv, Hk. simpl. rewrite Hb. simpl. by rewrite <- app_assoc.
Qed.

Lemma Serve_same_key req req' s :
  TrimLeft (URL_Path req) "/" = TrimLeft (URL_Path req') "/" ->
  rw (exec (Serve req) s) = rw (exec (Serve req') s).
Proof.
  intros Hp. unfold Serve, Serve_tx. run. rewrite Hp.
  repeat (case_match; simpl in *; simplify_eq); done.
Qed.

End Resolver.

(** ** Tokens *)

Lemma append_cons (x : ascii) (a b : string) : String x a +:+ b = String x (a +:+ b).
Proof. reflexivity. Qed.

Lemma append_assoc (a b c : string) : (a +:+ b) +:+ c = a +:+ (b +:+ c).
Proof. induction a as [|x a IH]; [done|]. by rewrite !append_cons, IH. Qed.

Lemma length_append (a b : string) :
  String.length (a +:+ b) = (String.length a + String.length b)%nat.
Proof. induction a as [|x a IH]; [done|]. rewrite append_cons. simpl. by rewrite IH. Qed.

Lemma all_chars_append p (a b : string) :
  all_chars p (a +:+ b) = all_chars p a && all_chars p b.
Proof.
  induction a as [|x a IH]; [done|]. rewrite append_cons. simpl.
  rewrite IH. by destruct (p x).
Qed.

Lemma base36_from_append acc (a b : string) :
  base36_from acc (a +:+ b) = base36_from acc a ≫= fun n => base36_from n b.
Proof.
  revert acc. induction a as [|x a IH]; intros acc; [done|].
  rewrite append_cons. simpl. destruct (digitValue x); [apply IH|done].
Qed.

Lemma digitValue_digit n : 0 <= n < 36 -> digitValue (digit n) = Some n.
Proof.
  intros Hn. replace n with (Z.of_nat (Z.to_nat n)) by lia.
  assert (Hk : (Z.to_nat n < 36)%nat) by lia.
  generalize dependent (Z.to_nat n). clear. intros k Hk.
  do 36 (destruct k as [|k]; [reflexivity|]). lia.
Qed.

Lemma formatBits_loop_append turns b u a :
  formatBits_loop turns b u a = formatBits_loop turns b u "" +:+ a.
Proof.
  revert u a. induction turns as [|turns IH]; intros u a; simpl; [done|].
  destruct (b <=? u); [|done].
  rewrite (IH _ (String _ a)), (IH _ (String _ "")). by rewrite append_assoc.
Qed.

(** A number below [36 ^ n] is written with [n] digits at most, within the
    turns the buffer allows, and reads back as itself. *)
Lemma formatBits_loop_36 (n turns : nat) (u : Z) :
  (n < turns)%nat -> 0 <= u < 36 ^ Z.of_nat (S n) ->
  let r := formatBits_loop turns 36 u "" in
  base36_from 0 r = Some u
  /\ all_chars is_base36_digit r = true
  /\ (0 < String.length r <= S n)%nat.
Proof.
  revert turns u. induction n as [|n IH]; intros turns u Ht Hu;
    (destruct turns as [|turns]; [lia|]); simpl.
  - replace (36 ^ Z.of_nat 1) with 36 in Hu by reflexivity.
    destruct (36 <=? u) eqn:Hge; [lia|]. simpl.
    unfold is_base36_digit. rewrite digitValue_digit by lia. simpl.
    repeat split; auto; lia.
  - destruct (36 <=? u) eqn:Hge.
    + assert (Hq : 0 <= u / 36 < 36 ^ Z.of_nat (S n)).
      { split; [apply Z.div_pos; lia|].
        apply Z.div_lt_upper_bound; [lia|].
        replace (Z.of_nat (S (S n))) with (Z.succ (Z.of_nat (S n))) in Hu by lia.
        rewrite Z.pow_succ_r in Hu by lia. lia. }
      destruct (IH turns (u / 36) ltac:(lia) Hq) as (Hv & Hc & Hl).
      assert (Hd : 0 <= u - u / 36 * 36 < 36).
      { pose proof (Z.mod_pos_bound u 36 ltac:(lia)).
        pose proof (Z.div_mod u 36 ltac:(lia)). lia. }
      rewrite formatBits_loop_append.
      rewrite base36_from_append, all_chars_append, length_append, Hv, Hc.
      simpl. unfold is_base36_digit. rewrite digitValue_digit by exact Hd. simpl.
      repeat split; [f_equal; lia|lia|lia].
    + assert (0 <= u < 36) by lia. simpl.
      unfold is_base36_digit. rewrite digitValue_digit by lia. simpl.
      repeat split; auto; lia.
Qed.

Lemma Int63_range (x : Z) : 0 <= Z.land x rngMask < 2 ^ 63.
Proof.
  unfold rngMask. replace (2 ^ 63 - 1) with (Z.ones 63) by reflexivity.
  rewrite Z.land_ones by lia. apply Z.mod_pos_bound. lia.
Qed.

Lemma FormatInt_63 (n : Z) :
  0 <= n < 2 ^ 63 ->
  base36_value (FormatInt n 36) = Some n
  /\ all_chars is_base36_digit (FormatInt n 36) = true
  /\ (0 < String.length (FormatInt n 36) <= 13)%nat.
Proof.
  intros Hn. unfold FormatInt, formatBits.
  assert (Hneg : (n <? 0) = false) by lia. rewrite Hneg.
  rewrite Z.mod_small by lia.
  assert (Hb : 0 <= n < 36 ^ Z.of_nat 13).
  { replace (36 ^ Z.of_nat 13) with 170581728179578208256 by reflexivity. lia. }
  pose proof (formatBits_loop_36 12 64 n ltac:(lia) Hb) as Hr. cbv zeta in Hr.
  destruct Hr as (Hv & Hc & Hl).
  split; [|split; [exact Hc|exact Hl]].
  unfold base36_value.
  destruct (formatBits_loop 64 36 n "") eqn:E; [cbn in Hl; lia|].
  exact Hv.
Qed.

(** ** The minter *)

Lemma stored_insert_bucket (d : DB) name (m : gmap string string) b k :
  stored (<[name := m]> d) b k = if decide (b = name) then m !! k else stored d b k.
Proof.
  unfold stored. case_decide; subst.
  - by rewrite lookup_insert_eq.
  - by rewrite lookup_insert_ne.
Qed.

Lemma stored_alter (d : DB) (f : gmap string string -> gmap string string) name b k :
  stored (alter f name d) b k
  = if decide (b = name) then d !! name ≫= (fun m : gmap string string => f m !! k)
    else stored d b k.
Proof.
  unfold stored. case_decide; subst.
  - rewrite lookup_alter_eq. by destruct (d !! name).
  - by rewrite lookup_alter_ne.
Qed.

Section Minter.
Context `{JSON}.

(** What the transaction of [Mint] does: the token is the one the URL is
    bound to, or else the candidate; when it returns [nil], the record and
    the binding have been written, and nothing else in the two buckets has
    changed. *)
Lemma Mint_tx_spec url key s :
  let r := Mint_tx url (mkTx true) key s in
  let t := match stored (db s) "urls" url with Some k => k | None => key end in
  r.1.1 = t /\ wall r.2 = wall s /\ ticks r.2 = S (ticks s)
  /\ source r.2 = source s /\ draws r.2 = draws s /\ logs r.2 = logs s /\ rw r.2 = rw s
  /\ match r.1.2 with
     | None =>
         exists data,
           json_Marshal {| Url := url; Expiry := Add (now s) (Hour * 24 * 30) |} = inr data
           /\ len url <= MaxKeySize
           /\ len t <> 0
           /\ (forall u, stored (db r.2) "urls" u
                         = if decide (u = url) then Some t else stored (db s) "urls" u)
           /\ (forall k, stored (db r.2) "keys" k
                         = if decide (k = t) then Some data else stored (db s) "keys" k)
           /\ (forall b x, b <> "urls" -> b <> "keys" ->
                 stored (db r.2) b x = stored (db s) b x)
     | Some _ => True
     end.
Proof.
  destruct s as [d w tk src dr lg r0]. unfold Mint_tx, CreateBucketIfNotExists, Put. run.
  unfold now, set_db; simpl.
  destruct (d !! "urls") as [mu|] eqn:Hu; simpl;
    rewrite ?lookup_insert_ne by done;
    (destruct (d !! "keys") as [mk|] eqn:Hk; simpl);
    rewrite ?stored_insert_bucket; simpl;
    rewrite ?(stored_None_bucket d "urls") by done;
    (destruct (json_Marshal _) as [e|data] eqn:Hm; simpl; [by split_and!|]);
    set (t := match stored d "urls" url with Some k => k | None => key end);
    repeat (case_match; simpl in *; simplify_eq; try (by split_and!)).
  all: split_and!; try done.
  all: exists data; split_and!; [done|lia|lia| | |].
  all: intros x; intros; rewrite !stored_alter, ?stored_insert_bucket; simpl.
  all: rewrite ?lookup_alter_ne, ?lookup_insert_ne, ?lookup_insert_eq by done.
  all: rewrite ?Hu, ?Hk; simpl.
  all: repeat case_decide; simplify_eq; try done.
  all: unfold stored; rewrite ?Hu, ?Hk; simpl.
  all: rewrite ?lookup_insert_eq, ?lookup_insert_ne by done; done.
Qed.

(** The two ways [Mint] ends once the form carries a URL: the transaction
    commits, or it fails and the store is as before. *)
Lemma Mint_cases req s :
  ParseForm req = None -> FormValue req "url" <> "" ->
  let url := FormValue req "url" in
  let s' := exec (Mint req) s in
  let t := match stored (db s) "urls" url with
           | Some k => k
           | None => FormatInt (Z.land (source s (draws s)) rngMask) 36
           end in
  wall s' = wall s /\ source s' = source s
  /\ ((rw s' = (rw s ++ [RwWriteHeader StatusOK; RwWrite t])%list
       /\ ticks s' = S (ticks s)
       /\ exists data,
            json_Marshal {| Url := url; Expiry := Add (now s) (Hour * 24 * 30) |} = inr data
            /\ len url <= MaxKeySize
            /\ len t <> 0
            /\ (forall u, stored (db s') "urls" u
                          = if decide (u = url) then Some t else stored (db s) "urls" u)
            /\ (forall k, stored (db s') "keys" k
                          = if decide (k = t) then Some data else stored (db s) "keys" k)
            /\ (forall b x, b <> "urls" -> b <> "keys" ->
                  stored (db s') b x = stored (db s) b x))
      \/ (rw s' = (rw s ++ [RwError "internal server error" StatusInternalServerError;
                            RwWriteHeader StatusOK; RwWrite t])%list
          /\ db s' = db s /\ ticks s' = S (S (ticks s)))).
Proof.
  intros HP Hurl. cbv zeta. unfold Mint. rewrite HP.
  destruct (decide (FormValue req "url" = "")) as [|_]; [done|]. run.
  match goal with |- context [Mint_tx ?u ?tx ?c ?s1] =>
    pose proof (Mint_tx_spec u c s1) as Hspec; cbv zeta in Hspec;
    destruct (Mint_tx u tx c s1) as [[key err] s2] end.
  simpl in *. destruct Hspec as (-> & Hw & Ht & Hsrc & Hdr & Hlg & Hrw & Hres).
  destruct err as [e|]; simpl.
  - rewrite Hw, Hsrc, Hrw, Ht. repeat split. right. repeat split.
    by rewrite <- !app_assoc.
  - rewrite Hw, Hsrc, Hrw, Ht. repeat split. left. repeat split.
    + by rewrite <- !app_assoc.
    + exact Hres.
Qed.

Lemma Mint_rejects req s :
  ParseForm req <> None \/ FormValue req "url" = "" ->
  db (exec (Mint req) s) = db s
  /\ exists msg, rw (exec (Mint req) s) = (rw s ++ [RwError msg StatusBadRequest])%list.
Proof.
  intros Hrej. unfold Mint. destruct (ParseForm req) as [e|]; run.
  - split; [done|]. by eexists.
  - destruct Hrej as [|Hrej]; [done|]. rewrite Hrej. simpl. split; [done|]. by eexists.
Qed.

End Minter.

(** ** The sweeper *)

Lemma forRange_cons {A B} (x : B) (l : list B) (body : B -> A -> M A) (a : A) s :
  forRange (x :: l) body a s = let '(a', s') := body x a s in forRange l body a' s'.
Proof. reflexivity. Qed.

Section Sweeper.
Context `{JSON}.

#[local] Arguments Expirer_visit : simpl never.

Lemma due_within_mono w a b a' b' v :
  (a' <= a)%nat -> (b <= b')%nat -> due_within w a b v -> due_within w a' b' v.
Proof.
  unfold due_within. destruct (json_Unmarshal v) as [o [e|]]; [done|].
  intros ?? (i & ? & ?). exists i. split; [lia|done].
Qed.

Lemma Expirer_visit_spec k v kd ud s :
  let r := Expirer_visit k v (kd, ud) s in
  db r.2 = db s /\ wall r.2 = wall s /\ rw r.2 = rw s
  /\ source r.2 = source s /\ draws r.2 = draws s
  /\ match json_Unmarshal v with
     | (o, Some _) =>
         ticks r.2 = ticks s /\ r.1 = ((kd ++ [k])%list, (ud ++ [Url o])%list)
     | (o, None) =>
         ticks r.2 = S (ticks s)
         /\ r.1 = if Before (Expiry o) (now s)
                  then ((kd ++ [k])%list, (ud ++ [Url o])%list) else (kd, ud)
     end.
Proof.
  destruct s as [d w tk src dr lg r0]. unfold Expirer_visit.
  destruct (json_Unmarshal v) as [o [e|]]; run; unfold now; simpl.
  - done.
  - by destruct (Before (Expiry o) (w tk)).
Qed.

Lemma Expirer_scan_spec l kd ud s :
  let r := forRange l (fun kv => Expirer_visit kv.1 kv.2) (kd, ud) s in
  db r.2 = db s /\ wall r.2 = wall s /\ rw r.2 = rw s
  /\ source r.2 = source s /\ draws r.2 = draws s
  /\ (ticks s <= ticks r.2)%nat
  /\ (forall k, k ∈ r.1.1 ->
        k ∈ kd \/ exists v, (k, v) ∈ l /\ due_within (wall s) (ticks s) (ticks r.2) v)
  /\ (monotone_wall (wall s) ->
      forall k v, (k, v) ∈ l -> due (now s) v ->
        k ∈ r.1.1 /\ Url (json_Unmarshal v).1 ∈ r.1.2)
  /\ (forall k, k ∈ kd -> k ∈ r.1.1)
  /\ (forall u, u ∈ ud -> u ∈ r.1.2).
Proof.
  revert kd ud s. induction l as [|[k v] l IH]; intros kd ud s.
  - simpl. run. split_and!; try done; try lia.
    + intros k Hk. by left.
    + intros _ k v Hin. by apply elem_of_nil in Hin.
  - rewrite forRange_cons. cbn [fst snd].
    pose proof (Expirer_visit_spec k v kd ud s) as Hv. cbv zeta in Hv.
    destruct (Expirer_visit k v (kd, ud) s) as [[kd1 ud1] s1]. simpl in Hv.
    destruct Hv as (Hd1 & Hw1 & Hr1 & Hs1 & Hdr1 & Hv).
    specialize (IH kd1 ud1 s1). cbv zeta in IH.
    destruct (forRange l _ (kd1, ud1) s1) as [[kd2 ud2] s2]. simpl in *.
    destruct IH as (Hd2 & Hw2 & Hr2 & Hs2 & Hdr2 & Ht2 & Hsound & Hcompl & Hkd & Hud).
    rewrite Hw1 in *.
    assert (Ht1 : (ticks s <= ticks s1 <= S (ticks s))%nat).
    { destruct (json_Unmarshal v) as [o [e|]]; destruct Hv as [-> _]; lia. }
    assert (Hsub : (forall x, x ∈ kd -> x ∈ kd1) /\ (forall x, x ∈ ud -> x ∈ ud1)).
    { destruct (json_Unmarshal v) as [o [e|]]; destruct Hv as [_ Hv];
        [|destruct (Before (Expiry o) (now s))]; simplify_eq;
        split; intros x Hx; try done; apply elem_of_app; by left. }
    destruct Hsub as [Hsubk Hsubu].
    split_and!; try congruence; try lia; eauto.
    + intros x Hx. destruct (Hsound x Hx) as [Hx1|(v' & Hin & Hdue)].
      * unfold due_within.
        destruct (json_Unmarshal v) as [o [e|]] eqn:Hdec; destruct Hv as [Hts Hv].
        -- simplify_eq. apply elem_of_app in Hx1 as [?|Hx1]; [by left|].
           apply list_elem_of_singleton in Hx1 as ->. right. exists v.
           split; [apply elem_of_cons; by left|]. by rewrite Hdec.
        -- destruct (Before (Expiry o) (now s)) eqn:Hb; simplify_eq; [|by left].
           apply elem_of_app in Hx1 as [?|Hx1]; [by left|].
           apply list_elem_of_singleton in Hx1 as ->. right. exists v.
           split; [apply elem_of_cons; by left|]. rewrite Hdec.
           exists (ticks s). split; [lia|done].
      * right. exists v'. split; [apply elem_of_cons; by right|].
        eapply due_within_mono; [| |exact Hdue]; lia.
    + intros Hmono x v' Hin Hdue. apply elem_of_cons in Hin as [[= -> ->]|Hin].
      * unfold due in Hdue.
        destruct (json_Unmarshal v) as [o [e|]]; simpl; destruct Hv as [_ Hv].
        -- simplify_eq. split; [apply Hkd|apply Hud]; apply elem_of_app; right;
             by apply list_elem_of_singleton.
        -- rewrite Hdue in Hv. simplify_eq.
           split; [apply Hkd|apply Hud]; apply elem_of_app; right;
             by apply list_elem_of_singleton.
      * apply (Hcompl Hmono x v' Hin). unfold due in *.
        destruct (json_Unmarshal v') as [o [e|]]; [done|].
        unfold Before, now in *. rewrite ?Hw1.
        apply Z.ltb_lt in Hdue. apply Z.ltb_lt.
        pose proof (Hmono (ticks s) (ticks s1) ltac:(lia)). lia.
Qed.


Lemma Delete_all_spec name l s :
  let r := Delete_all (mkBucket (mkTx true) name) l s in
  wall r.2 = wall s /\ ticks r.2 = ticks s /\ rw r.2 = rw s
  /\ source r.2 = source s /\ draws r.2 = draws s /\ logs r.2 = logs s
  /\ forall b x, stored (db r.2) b x
                 = if decide (b = name /\ x ∈ l) then None else stored (db s) b x.
Proof.
  unfold Delete_all. revert s. induction l as [|k l IH]; intros s.
  - simpl. run. split_and!; try done. intros b x.
    case_decide as Hd; [|done]. destruct Hd as [_ Hx]. by apply elem_of_nil in Hx.
  - rewrite forRange_cons. unfold Delete. run.
    specialize (IH (set_db (alter (delete k) name (db s)) s)). cbv zeta in IH.
    destruct (forRange l _ tt _) as [[] s2]. simpl in *.
    destruct IH as (Hw & Ht & Hr & Hs & Hdr & Hlg & Hst).
    split_and!; try done. intros b x. rewrite Hst. simpl. rewrite stored_alter.
    destruct (decide (b = name)) as [->|Hb]; cycle 1.
    { rewrite !decide_False; [done|by intros [? _]|by intros [? _]]. }
    destruct (decide (x = k)) as [->|Hxk].
    { rewrite (decide_True (P := name = name /\ k ∈ k :: l))
        by (split; [done|apply elem_of_cons; by left]).
      case_decide; [done|].
      destruct (db s !! name); simpl; [by rewrite lookup_delete_eq|done]. }
    destruct (decide (x ∈ l)) as [Hx|Hx].
    { rewrite !decide_True; [done|split; [done|apply elem_of_cons; by right]|done]. }
    rewrite !decide_False.
    + unfold stored. destruct (db s !! name); simpl; [by rewrite lookup_delete_ne|done].
    + intros [_ [?|?]%elem_of_cons]; done.
    + by intros [_ ?].
Qed.

(** One cycle removes the keys of a list [kd] from bucket [keys] and those
    of a list [ud] from bucket [urls], and nothing else. [kd] holds the keys
    of the values found due at the moment the clock was read for them, and
    with them in [ud] the URLs those values decode to. *)
Lemma Expirer_cycle_spec s :
  let s' := exec Expirer_cycle s in
  wall s' = wall s /\ rw s' = rw s /\ (ticks s <= ticks s')%nat
  /\ exists kd ud : list string,
       (forall b x, stored (db s') b x
                    = if decide ((b = "keys" /\ x ∈ kd) \/ (b = "urls" /\ x ∈ ud))
                      then None else stored (db s) b x)
       /\ (forall k, k ∈ kd ->
             exists v, stored (db s) "keys" k = Some v
                       /\ due_within (wall s) (ticks s) (ticks s') v)
       /\ (monotone_wall (wall s) ->
           forall k v, stored (db s) "keys" k = Some v -> due (now s) v ->
             k ∈ kd /\ Url (json_Unmarshal v).1 ∈ ud).
Proof.
  unfold Expirer_cycle, Expirer_tx, ForEach. run.
  destruct (db s !! "keys") as [m|] eqn:Hm; simpl; rewrite ?Hm.
  - pose proof (Expirer_scan_spec (map_to_list m) [] [] s) as Hscan. cbv zeta in Hscan.
    destruct (forRange (map_to_list m) _ ([], []) s) as [[kd ud] s1]. simpl in *.
    destruct Hscan as (Hd1 & Hw1 & Hr1 & Hs1 & Hdr1 & Ht1 & Hsound & Hcompl & _ & _).
    pose proof (Delete_all_spec "keys" kd s1) as Hdel. cbv zeta in Hdel.
    destruct (Delete_all _ kd s1) as [[] s2]. simpl in *.
    destruct Hdel as (Hw2 & Ht2 & Hr2 & Hs2 & Hdr2 & Hlg2 & Hst2).
    assert (Hkeys : forall k v, (k, v) ∈ map_to_list m <-> stored (db s) "keys" k = Some v).
    { intros k v. rewrite elem_of_map_to_list. unfold stored. by rewrite Hm. }
    assert (Hsound' : forall k, k ∈ kd ->
              exists v, stored (db s) "keys" k = Some v
                        /\ due_within (wall s) (ticks s) (ticks s1) v).
    { intros k Hk. destruct (Hsound k Hk) as [Hn|(v & Hin & Hdue)].
      - by apply elem_of_nil in Hn.
      - exists v. by rewrite <- Hkeys. }
    assert (Hcompl' : monotone_wall (wall s) ->
              forall k v, stored (db s) "keys" k = Some v -> due (now s) v ->
                k ∈ kd /\ Url (json_Unmarshal v).1 ∈ ud).
    { intros Hmono k v Hk. apply Hcompl; [done|]. by rewrite Hkeys. }
    destruct (0 <? Z.of_nat (length kd)); simpl;
      (destruct (db s2 !! "urls") as [mu|] eqn:Hu; simpl).
    1, 3: match goal with |- context [Delete_all _ ?u ?st] =>
            pose proof (Delete_all_spec "urls" u st) as Hdel; cbv zeta in Hdel;
            destruct (Delete_all _ u st) as [[] s4] end; simpl in *;
          destruct Hdel as (Hw4 & Ht4 & Hr4 & Hs4 & Hdr4 & Hlg4 & Hst4);
          (split_and!; [congruence|congruence|lia|]);
          exists kd, ud; split_and!;
          [ intros b x; rewrite Hst4, Hst2, Hd1;
            repeat case_decide; try done; exfalso; tauto
          | intros k Hk; rewrite Ht4, Ht2; by apply Hsound'
          | exact Hcompl' ].
    all: split_and!; [congruence|congruence|lia|];
      exists kd, ud; split_and!;
      [ intros b x; rewrite Hst2, Hd1;
        assert (Hnone : stored (db s) "urls" x = None)
          by (rewrite <- Hd1; specialize (Hst2 "urls" x);
              rewrite decide_False in Hst2 by (by intros [? _]);
              rewrite <- Hst2; by apply stored_None_bucket);
        repeat case_decide; try done; try (exfalso; tauto);
        destruct_or?; destruct_and?; simplify_eq; try done; exfalso; tauto
      | intros k Hk; rewrite Ht2; by apply Hsound'
      | exact Hcompl' ].
  - split_and!; try done. exists [], []. split_and!.
    + intros b x. rewrite decide_False; [done|].
      intros [[_ Hx]|[_ Hx]]; by apply elem_of_nil in Hx.
    + intros k Hk. by apply elem_of_nil in Hk.
    + intros _ k v Hk. unfold stored in Hk. by rewrite Hm in Hk.
Qed.

End Sweeper.

(** * The claims of the specification *)

Section Claims.
Context `{JSONLaws}.

(** C1, as the code has it: when the record under the token decodes and has
    expired, [Serve] answers not found and then, the expired branch having
    no [return], goes on to redirect to the target all the same. The store
    is left as it was. *)
Theorem Serve_expired_still_redirects req s v keyObj :
  stored (db s) "keys" (TrimLeft (URL_Path req) "/") = Some v ->
  json_Unmarshal v = (keyObj, None) ->
  Before (Expiry keyObj) (now s) = true ->
  rw (exec (Serve req) s)
  = (rw s ++ [RwNotFound; RwRedirect (Url keyObj) StatusMovedPermanently])%list
  /\ db (exec (Serve req) s) = db s.
Proof.
  intros Hv Hk Hb. split; [by apply Serve_expired with v|apply Serve_db].
Qed.

(** C7: when the value under the token does not decode, [Serve] answers
    with an internal server error and nothing else, in particular not with
    not found; any token whose record decodes and has not expired is
    resolved afterwards as before. *)
Theorem Serve_corrupt_is_internal_error req s v partial e :
  stored (db s) "keys" (TrimLeft (URL_Path req) "/") = Some v ->
  json_Unmarshal v = (partial, Some e) ->
  let s' := exec (Serve req) s in
  rw s' = (rw s ++ [RwError "internal server error" StatusInternalServerError])%list
  /\ rw s' <> (rw s ++ [RwNotFound])%list
  /\ forall req' v' keyObj,
       stored (db s) "keys" (TrimLeft (URL_Path req') "/") = Some v' ->
       json_Unmarshal v' = (keyObj, None) ->
       Before (Expiry keyObj) (now s') = false ->
       rw (exec (Serve req') s')
       = (rw s' ++ [RwRedirect (Url keyObj) StatusMovedPermanently])%list.
Proof.
  intros Hv Hk s'. assert (Hrw := Serve_corrupt req s v partial e Hv Hk).
  split_and!.
  - exact Hrw.
  - subst s'. rewrite Hrw. intros Heq. by apply app_inv_head in Heq.
  - intros req' v' keyObj Hv' Hk' Hb. apply Serve_live with v'; [|done|done].
    subst s'. by rewrite Serve_db.
Qed.

(** C8: [Serve] leaves every bucket as it found it, whatever the path and
    the store; the function it runs in the transaction makes no change
    that a commit could keep. *)
Theorem Serve_never_writes req s :
  db (exec (Serve req) s) = db s
  /\ forall tx, db (exec (Serve_tx req tx) s) = db s.
Proof. split; [apply Serve_db|intros tx; apply Serve_tx_db]. Qed.

(** C10: the key [Serve] looks up is the path without its leading slashes.
    For a token [t] that does not start with a slash, every path made of
    slashes followed by [t] is answered like any other such path; a path of
    slashes only is answered with not found, no bucket of a bolt store
    holding the empty key. *)
Theorem Serve_trims_leading_slashes req s (n : nat) t :
  starts_with_slash t = false ->
  URL_Path req = slashes n +:+ t ->
  TrimLeft (URL_Path req) "/" = t
  /\ (forall req' (m : nat), URL_Path req' = slashes m +:+ t ->
        rw (exec (Serve req') s) = rw (exec (Serve req) s))
  /\ (t = "" -> bolt_wf (db s) -> rw (exec (Serve req) s) = (rw s ++ [RwNotFound])%list).
Proof.
  intros Ht Hp. assert (Hkey : TrimLeft (URL_Path req) "/" = t).
  { rewrite Hp. by apply TrimLeft_slashes. }
  split_and!.
  - exact Hkey.
  - intros req' m Hp'. apply Serve_same_key. rewrite Hkey, Hp'.
    by apply TrimLeft_slashes.
  - intros -> Hwf. apply Serve_absent. rewrite Hkey. apply Hwf.
Qed.


(** To read a response: [Mint] answered [t] and no error. *)
Lemma Mint_answer_ok req s t :
  rw (exec (Mint req) s) = (rw s ++ [RwWriteHeader StatusOK; RwWrite t])%list ->
  ParseForm req = None /\ FormValue req "url" <> ""
  /\ t = match stored (db s) "urls" (FormValue req "url") with
         | Some k => k
         | None => FormatInt (Z.land (source s (draws s)) rngMask) 36
         end
  /\ wall (exec (Mint req) s) = wall s
  /\ ticks (exec (Mint req) s) = S (ticks s)
  /\ exists data,
       json_Marshal {| Url := FormValue req "url";
                       Expiry := Add (now s) (Hour * 24 * 30) |} = inr data
       /\ (forall u, stored (db (exec (Mint req) s)) "urls" u
                     = if decide (u = FormValue req "url") then Some t
                       else stored (db s) "urls" u)
       /\ (forall k, stored (db (exec (Mint req) s)) "keys" k
                     = if decide (k = t) then Some data else stored (db s) "keys" k).
Proof.
  intros Hrw.
  destruct (ParseForm req) as [e|] eqn:HP.
  { destruct (Mint_rejects req s) as (_ & msg & Hrej); [left; by rewrite HP|].
    rewrite Hrej in Hrw. by apply app_inv_head in Hrw. }
  destruct (decide (FormValue req "url" = "")) as [Hu|Hu].
  { destruct (Mint_rejects req s) as (_ & msg & Hrej); [by right|].
    rewrite Hrej in Hrw. by apply app_inv_head in Hrw. }
  pose proof (Mint_cases req s HP Hu) as Hc. cbv zeta in Hc.
  destruct Hc as (Hw & _ & [(Hok & Htk & data & Hm & _ & _ & Hurls & Hkeys & _)
                           |(Hfail & _)]).
  - rewrite Hok in Hrw. apply app_inv_head in Hrw. injection Hrw as <-.
    split_and!; try done. by exists data.
  - rewrite Hfail in Hrw. by apply app_inv_head in Hrw.
Qed.

(** C3, as the code has it: when the transaction fails, here because the
    URL is longer than bolt allows a key to be, [Mint] answers with an
    internal server error and then, having no [return] there, writes the
    token as well. The store is left as it was. *)
Theorem Mint_failure_still_writes_token req s :
  ParseForm req = None ->
  MaxKeySize < len (FormValue req "url") ->
  let s' := exec (Mint req) s in
  db s' = db s
  /\ exists t,
       rw s' = (rw s ++ [RwError "internal server error" StatusInternalServerError;
                         RwWriteHeader StatusOK; RwWrite t])%list.
Proof.
  intros HP Hlen. assert (Hu : FormValue req "url" <> "").
  { intros Hu. rewrite Hu in Hlen. by vm_compute in Hlen. }
  pose proof (Mint_cases req s HP Hu) as Hc. cbv zeta in Hc.
  destruct Hc as (_ & _ & [(_ & _ & data & _ & Hle & _)|(Hfail & Hdb & _)]); [lia|].
  split; [done|]. by eexists.
Qed.

(** C6: when [Mint] answers a URL with a token, [Serve] redirects a path
    whose key is that token to that URL, as long as the record, which
    expires 30 days after the minting, has not expired. *)
Theorem Mint_then_Serve req s t req' :
  rw (exec (Mint req) s) = (rw s ++ [RwWriteHeader StatusOK; RwWrite t])%list ->
  TrimLeft (URL_Path req') "/" = t ->
  let s1 := exec (Mint req) s in
  Before (Add (now s) (Hour * 24 * 30)) (now s1) = false ->
  FormValue req "url" <> ""
  /\ rw (exec (Serve req') s1)
     = (rw s1 ++ [RwRedirect (FormValue req "url") StatusMovedPermanently])%list.
Proof.
  intros Hrw Hkey s1 Hb.
  destruct (Mint_answer_ok req s t Hrw)
    as (_ & Hu & _ & _ & _ & data & Hm & _ & Hkeys).
  split; [done|].
  apply (Serve_live req' s1 data {| Url := FormValue req "url";
                                    Expiry := Add (now s) (Hour * 24 * 30) |}).
  - subst s1. rewrite Hkey, Hkeys. by rewrite decide_True.
  - by apply json_roundtrip.
  - exact Hb.
Qed.

(** C5: when [Mint] has answered a URL with a token, minting the same URL
    again answers with the same token, and the record then stored under the
    token is for that URL and expires no earlier than the one the first
    minting stored, the clock not running backwards. *)
Theorem Mint_twice req s t :
  monotone s ->
  rw (exec (Mint req) s) = (rw s ++ [RwWriteHeader StatusOK; RwWrite t])%list ->
  let s1 := exec (Mint req) s in
  let s2 := exec (Mint req) s1 in
  (rw s2 = (rw s1 ++ [RwWriteHeader StatusOK; RwWrite t])%list
   \/ rw s2 = (rw s1 ++ [RwError "internal server error" StatusInternalServerError;
                         RwWriteHeader StatusOK; RwWrite t])%list)
  /\ exists v1 k1 v2 k2,
       stored (db s1) "keys" t = Some v1 /\ json_Unmarshal v1 = (k1, None)
       /\ stored (db s2) "keys" t = Some v2 /\ json_Unmarshal v2 = (k2, None)
       /\ Url k1 = FormValue req "url" /\ Url k2 = FormValue req "url"
       /\ Expiry k1 <= Expiry k2.
Proof.
  intros Hmono Hrw s1 s2.
  destruct (Mint_answer_ok req s t Hrw)
    as (HP & Hu & Ht & Hw1 & Ht1 & data & Hm & Hurls & Hkeys).
  fold s1 in Hw1, Ht1, Hurls, Hkeys.
  assert (Hk1 : stored (db s1) "keys" t = Some data).
  { rewrite Hkeys. by rewrite decide_True. }
  assert (Hu1 : stored (db s1) "urls" (FormValue req "url") = Some t).
  { rewrite Hurls. by rewrite decide_True. }
  pose proof (Mint_cases req s1 HP Hu) as Hc. cbv zeta in Hc. fold s2 in Hc.
  rewrite Hu1 in Hc.
  destruct Hc as (Hw2 & _ & [(Hok & Htk & data2 & Hm2 & _ & _ & _ & Hkeys2 & _)
                            |(Hfail & Hdb & _)]).
  - split; [by left|].
    eexists data, _, data2, _. split_and!.
    + exact Hk1.
    + by apply json_roundtrip.
    + rewrite Hkeys2. by rewrite decide_True.
    + by apply json_roundtrip.
    + done.
    + done.
    + simpl. unfold Add, now. rewrite Hw1, Ht1.
      pose proof (Hmono (ticks s) (S (ticks s)) ltac:(lia)). lia.
  - split; [by right|].
    eexists data, _, data, _. split_and!.
    + exact Hk1.
    + by apply json_roundtrip.
    + by rewrite Hdb.
    + by apply json_roundtrip.
    + done.
    + done.
    + done.
Qed.

(** C9: when the URL is not bound yet, the token [Mint] writes is the
    rendering in base 36 of the number drawn, a number of 63 bits: one to
    thirteen characters, each a digit or a lower-case letter. When the
    answer carries no error, the URL is bound to that token and the token
    holds the record of the URL. *)
Theorem Mint_fresh_token_is_base36 req s :
  ParseForm req = None ->
  FormValue req "url" <> "" ->
  stored (db s) "urls" (FormValue req "url") = None ->
  let s' := exec (Mint req) s in
  exists (n : Z) (t : string),
    0 <= n < 2 ^ 63 /\ t = FormatInt n 36 /\ base36_value t = Some n
    /\ (0 < String.length t <= 13)%nat
    /\ all_chars is_base36_digit t = true
    /\ last (rw s') = Some (RwWrite t)
    /\ (rw s' = (rw s ++ [RwWriteHeader StatusOK; RwWrite t])%list ->
        stored (db s') "urls" (FormValue req "url") = Some t
        /\ exists data,
             stored (db s') "keys" t = Some data
             /\ json_Unmarshal data
                = ({| Url := FormValue req "url";
                      Expiry := Add (now s) (Hour * 24 * 30) |}, None)).
Proof.
  intros HP Hu Hfree s'.
  pose proof (Int63_range (source s (draws s))) as Hn.
  destruct (FormatInt_63 _ Hn) as (Hval & Hchars & Hlen).
  pose proof (Mint_cases req s HP Hu) as Hc. cbv zeta in Hc. fold s' in Hc.
  rewrite Hfree in Hc.
  eexists _, _. split_and!; [apply Hn|apply Hn|reflexivity|exact Hval|apply Hlen|apply Hlen|exact Hchars| |].
  - destruct Hc as (_ & _ & [(Hok & _)|(Hfail & _)]).
    + rewrite Hok. by rewrite last_app.
    + rewrite Hfail. by rewrite last_app.
  - intros Hrw.
    destruct Hc as (_ & _ & [(_ & _ & data & Hm & _ & _ & Hurls & Hkeys & _)|(Hfail & _)]).
    + split; [rewrite Hurls; by rewrite decide_True|].
      exists data. split; [rewrite Hkeys; by rewrite decide_True|].
      by apply json_roundtrip.
    + rewrite Hfail in Hrw. by apply app_inv_head in Hrw.
Qed.


(** The sweeper only removes: what a bucket holds after a cycle it held
    before. *)
Lemma Expirer_cycle_only_deletes s b x v :
  stored (db (exec Expirer_cycle s)) b x = Some v -> stored (db s) b x = Some v.
Proof.
  pose proof (Expirer_cycle_spec s) as Hc. cbv zeta in Hc.
  destruct Hc as (_ & _ & _ & kd & ud & Hst & _). rewrite Hst.
  by case_decide.
Qed.

(** C2, amended: after one cycle, a token whose value did not decode, or
    whose record had expired when the cycle started, is gone from bucket
    [keys], and the URL that decoding left in the record is gone from bucket
    [urls]; a record that decodes and has not expired by the end of the
    cycle is still there and is resolved. The clock does not run
    backwards. *)
Theorem Expirer_cycle_sweeps s t v keyObj err :
  monotone s ->
  stored (db s) "keys" t = Some v ->
  json_Unmarshal v = (keyObj, err) ->
  let s' := exec Expirer_cycle s in
  ((err <> None \/ Before (Expiry keyObj) (now s) = true) ->
     stored (db s') "keys" t = None
     /\ stored (db s') "urls" (Url keyObj) = None)
  /\ (err = None -> Before (Expiry keyObj) (now s') = false ->
      stored (db s') "keys" t = Some v
      /\ forall req, TrimLeft (URL_Path req) "/" = t ->
           rw (exec (Serve req) s')
           = (rw s' ++ [RwRedirect (Url keyObj) StatusMovedPermanently])%list).
Proof.
  intros Hmono Hv Hdec s'.
  pose proof (Expirer_cycle_spec s) as Hc. cbv zeta in Hc. fold s' in Hc.
  destruct Hc as (Hw & _ & Htk & kd & ud & Hst & Hsound & Hcompl).
  split.
  - intros Hdue. destruct (Hcompl Hmono t v Hv) as [Hk Hu].
    { unfold due. rewrite Hdec. destruct err; [done|]. by destruct Hdue. }
    rewrite Hdec in Hu. simpl in Hu.
    rewrite !Hst. split; rewrite decide_True; auto.
  - intros -> Hlive. assert (Hkeep : stored (db s') "keys" t = Some v).
    { rewrite Hst, decide_False; [done|]. intros [[_ Hk]|[? _]]; [|done].
      destruct (Hsound t Hk) as (v' & Hv' & Hdue).
      rewrite Hv in Hv'. injection Hv' as <-.
      unfold due_within in Hdue. rewrite Hdec in Hdue.
      destruct Hdue as (i & Hi & Hb).
      unfold Before, now in *. rewrite Hw in Hlive.
      apply Z.ltb_lt in Hb. apply Z.ltb_ge in Hlive.
      pose proof (Hmono i (ticks s') ltac:(lia)). lia. }
    split; [done|]. intros req Hkey.
    apply Serve_live with v; [by rewrite Hkey|done|done].
Qed.

(** [Mint] keeps the binding in agreement with the records as long as no
    other URL is bound to the token it answers with. *)
Lemma Mint_keeps_binding tau req s :
  binding_inv tau (db s) ->
  (forall t u, last (rw (exec (Mint req) s)) = Some (RwWrite t) ->
               stored (db s) "urls" u = Some t -> u = FormValue req "url") ->
  binding_inv tau (db (exec (Mint req) s)).
Proof.
  intros Hinv Hfresh.
  destruct (ParseForm req) as [e|] eqn:HP.
  { destruct (Mint_rejects req s) as (-> & _); [left; by rewrite HP|done]. }
  destruct (decide (FormValue req "url" = "")) as [Hu|Hu].
  { destruct (Mint_rejects req s) as (-> & _); [by right|done]. }
  pose proof (Mint_cases req s HP Hu) as Hc. cbv zeta in Hc.
  destruct Hc as (_ & _ & [(Hok & _ & data & Hm & _ & _ & Hurls & Hkeys & _)
                          |(_ & -> & _)]); [|done].
  rewrite Hok, last_app in Hfresh. simpl in Hfresh.
  assert (Hfresh' : forall u, stored (db s) "urls" u = Some
            match stored (db s) "urls" (FormValue req "url") with
            | Some k => k
            | None => FormatInt (Z.land (source s (draws s)) rngMask) 36
            end -> u = FormValue req "url") by (intros u; by apply Hfresh).
  clear Hfresh.
  apply json_roundtrip in Hm.
  intros u t v keyObj Hbu Hbt Hdec Hlive.
  rewrite Hurls in Hbu. rewrite Hkeys in Hbt.
  destruct (decide (u = FormValue req "url")) as [->|Hne].
  - injection Hbu as <-. rewrite decide_True in Hbt by done.
    injection Hbt as <-. rewrite Hm in Hdec. by injection Hdec as <-.
  - case_decide as Ht.
    + subst t. injection Hbt as <-. rewrite Hm in Hdec. injection Hdec as <-.
      simpl. symmetry. by apply Hfresh'.
    + by apply (Hinv u t v keyObj).
Qed.

Lemma Expirer_cycle_keeps_binding tau s :
  binding_inv tau (db s) -> binding_inv tau (db (exec Expirer_cycle s)).
Proof.
  intros Hinv u t v keyObj Hu Ht Hdec Hlive.
  apply (Hinv u t v keyObj); [| |done|done]; by apply Expirer_cycle_only_deletes.
Qed.

(** C4, amended: a cycle of the sweeper keeps the binding of URLs to tokens
    in agreement with the records, and so does [Mint] as long as no other
    URL is bound to the token it answers with. *)
Theorem mutations_keep_binding tau s :
  binding_inv tau (db s) ->
  binding_inv tau (db (exec Expirer_cycle s))
  /\ forall req,
       (forall t u, last (rw (exec (Mint req) s)) = Some (RwWrite t) ->
                    stored (db s) "urls" u = Some t -> u = FormValue req "url") ->
       binding_inv tau (db (exec (Mint req) s)).
Proof.
  intros Hinv. split.
  - by apply Expirer_cycle_keeps_binding.
  - intros req. by apply Mint_keeps_binding.
Qed.

(** No bucket comes to hold the empty key. *)
Lemma Mint_bolt_wf req s : bolt_wf (db s) -> bolt_wf (db (exec (Mint req) s)).
Proof.
  intros Hwf.
  destruct (ParseForm req) as [e|] eqn:HP.
  { destruct (Mint_rejects req s) as (-> & _); [left; by rewrite HP|done]. }
  destruct (decide (FormValue req "url" = "")) as [Hu|Hu].
  { destruct (Mint_rejects req s) as (-> & _); [by right|done]. }
  pose proof (Mint_cases req s HP Hu) as Hc. cbv zeta in Hc.
  destruct Hc as (_ & _ & [(_ & _ & data & _ & _ & Hlen & Hurls & Hkeys & Hrest)
                          |(_ & -> & _)]); [|done].
  intros b. destruct (decide (b = "urls")) as [->|Hb1].
  { rewrite Hurls. rewrite decide_False by done. apply Hwf. }
  destruct (decide (b = "keys")) as [->|Hb2].
  { rewrite Hkeys. rewrite decide_False; [apply Hwf|]. intros Heq.
    apply Hlen. by rewrite <- Heq. }
  rewrite Hrest by done. apply Hwf.
Qed.

Lemma Expirer_cycle_bolt_wf s : bolt_wf (db s) -> bolt_wf (db (exec Expirer_cycle s)).
Proof.
  intros Hwf b. destruct (stored (db (exec Expirer_cycle s)) b "") as [v|] eqn:Hv; [|done].
  apply Expirer_cycle_only_deletes in Hv. by rewrite Hwf in Hv.
Qed.

Lemma empty_bolt_wf : bolt_wf ∅.
Proof. intros b. unfold stored. by rewrite lookup_empty. Qed.

End Claims.

(** * Further properties of the server *)

(** ** Authentication *)

Lemma prefix_space (s : string) :
  String.prefix " " s = match s with
                        | String c _ => Ascii.eqb " " c
                        | EmptyString => false
                        end.
Proof.
  destruct s as [|c r]; [done|].
  change (String.prefix " " (String c r))
    with (if ascii_dec " " c then String.prefix "" r else false).
  destruct (ascii_dec " " c) as [Heq|Hne].
  - subst c. by destruct r.
  - symmetry. by apply Ascii.eqb_neq.
Qed.

Lemma Index_no_space (s : string) : containsByte s " " = false -> Index s " " = -1.
Proof.
  induction s as [|c r IH]; intros Hs.
  - reflexivity.
  - cbn [Index]. rewrite prefix_space. simpl in Hs.
    rewrite Ascii.eqb_sym in Hs. destruct (Ascii.eqb " " c); [done|].
    by rewrite (IH Hs).
Qed.

Lemma Index_first_space (a b : string) :
  containsByte a " " = false ->
  Index (a +:+ " " +:+ b) " " = Z.of_nat (String.length a)
  /\ str_take (String.length a) (a +:+ " " +:+ b) = a
  /\ str_drop (String.length a + 1) (a +:+ " " +:+ b) = b.
Proof.
  induction a as [|c r IH]; intros Ha.
  - change ("" +:+ " " +:+ b) with (String " " b).
    split_and!; [|done|done]. cbn [Index]. by rewrite prefix_space.
  - simpl in Ha. rewrite Ascii.eqb_sym in Ha.
    destruct (Ascii.eqb " " c) eqn:Hc; [done|].
    destruct (IH Ha) as (Hi & Ht & Hd).
    rewrite append_cons. cbn [Index]. rewrite prefix_space, Hc, Hi.
    split_and!.
    + destruct (Z.of_nat (String.length r) <? 0) eqn:Hneg; [lia|]. simpl. lia.
    + simpl. by rewrite Ht.
    + simpl. exact Hd.
Qed.

Lemma space_cases (s : string) :
  containsByte s " " = false
  \/ exists a b, s = a +:+ " " +:+ b /\ containsByte a " " = false.
Proof.
  induction s as [|c r IH]; [by left|]. simpl.
  destruct (Ascii.eqb c " ") eqn:Hc.
  - right. exists "", r. apply Ascii.eqb_eq in Hc as ->. by split.
  - destruct IH as [Hr|(a & b & -> & Ha)]; [by left|].
    right. exists (String c a), b. split; [done|]. simpl. by rewrite Hc.
Qed.

Lemma SplitN_no_space (s : string) :
  containsByte s " " = false -> SplitN s " " 2 = [s].
Proof.
  intros Hs. unfold SplitN. simpl. by rewrite (Index_no_space s Hs).
Qed.

Lemma SplitN_first_space (a b : string) :
  containsByte a " " = false -> SplitN (a +:+ " " +:+ b) " " 2 = [a; b].
Proof.
  intros Ha. destruct (Index_first_space a b Ha) as (Hi & Ht & Hd).
  unfold SplitN. simpl. rewrite Hi.
  destruct (Z.of_nat (String.length a) <? 0) eqn:Hneg; [lia|].
  rewrite Nat2Z.id, Ht, Hd. done.
Qed.

Lemma lowerByte_space (c : ascii) : Ascii.eqb (lowerByte c) " " = Ascii.eqb c " ".
Proof. destruct c as [[] [] [] [] [] [] [] []]; reflexivity. Qed.

Lemma ToLower_space (s : string) : containsByte (ToLower s) " " = containsByte s " ".
Proof.
  induction s as [|c r IH]; [done|]. simpl. by rewrite lowerByte_space, IH.
Qed.

Lemma bearer_no_space (scheme : string) :
  ToLower scheme = "bearer" -> containsByte scheme " " = false.
Proof. intros Hl. by rewrite <- ToLower_space, Hl. Qed.

(** X1: a request whose authorization header is a word that reads [bearer]
    in lower case, one space and the secret is handed to the handler, and
    [withAuth] does nothing but that. *)
Theorem withAuth_admits secret f req scheme s :
  ToLower scheme = "bearer" ->
  Header_Get req "authorization" = scheme +:+ " " +:+ secret ->
  withAuth secret f req s = f (inner req) s.
Proof.
  intros Hl Hh. unfold withAuth. rewrite Hh.
  rewrite (SplitN_first_space scheme secret (bearer_no_space scheme Hl)).
  cbn [length nth]. by rewrite Hl, (String.eqb_refl secret).
Qed.

(** X2: any other request is answered 401 without the handler being run:
    the store and the random source are as before, and the response is the
    one error. *)
Theorem withAuth_refuses secret f req s :
  (forall scheme, ToLower scheme = "bearer" ->
     Header_Get req "authorization" <> scheme +:+ " " +:+ secret) ->
  let s' := exec (withAuth secret f req) s in
  db s' = db s /\ draws s' = draws s
  /\ rw s' = (rw s ++ [RwError "unauthorized" StatusUnauthorized])%list
  /\ logs s' = (logs s ++ [LogAccess (inner req) (now s) StatusUnauthorized])%list.
Proof.
  intros Hno. unfold withAuth.
  destruct (space_cases (Header_Get req "authorization")) as [Hs|(a & b & Hh & Ha)].
  - rewrite (SplitN_no_space _ Hs). simpl. run. done.
  - rewrite Hh, (SplitN_first_space a b Ha). cbn [length nth].
    destruct (String.eqb (ToLower a) "bearer") eqn:Hl; [|simpl; run; done].
    destruct (String.eqb b secret) eqn:Hb; [|simpl; run; done].
    apply String.eqb_eq in Hl, Hb. subst b. by destruct (Hno a Hl).
Qed.

(** ** The random secret *)

Section Secret.

#[local] Arguments Nat.div : simpl never.
#[local] Arguments Nat.modulo : simpl never.

Lemma rand_read_spec n : forall pos val s,
  let r := rand_read n pos val s in
  length r.1 = n
  /\ Forall (fun b => 0 <= b < 256) r.1
  /\ db r.2 = db s /\ wall r.2 = wall s /\ ticks r.2 = ticks s
  /\ source r.2 = source s /\ logs r.2 = logs s /\ rw r.2 = rw s
  /\ draws r.2 = (draws s + (if (n <=? pos)%nat then 0 else (n - pos + 6) / 7))%nat.
Proof.
  induction n as [|n IH]; intros pos val s.
  - simpl. run. split_and!; try done; try (destruct pos; simpl; lia).
  - cbn [rand_read]. destruct pos as [|p].
    + run. specialize (IH 6%nat (Z.shiftr (Z.land (source s (draws s)) rngMask) 8)
        (mkState (db s) (wall s) (ticks s) (source s) (S (draws s)) (logs s) (rw s))).
      cbv zeta in IH.
      destruct (rand_read n 6 _ _) as [l s1]. simpl in *.
      destruct IH as (Hl & Hb & Hd & Hw & Ht & Hs & Hlg & Hr & Hdr).
      split_and!; try done.
      * by rewrite Hl.
      * constructor; [|done]. apply Z.mod_pos_bound. lia.
      * rewrite Hdr. pose proof (Nat.div_mod_eq (S (n + 6)) 7).
        pose proof (Nat.mod_upper_bound (S (n + 6)) 7 ltac:(lia)).
        pose proof (Nat.div_mod_eq (n - 6 + 6) 7).
        pose proof (Nat.mod_upper_bound (n - 6 + 6) 7 ltac:(lia)).
        destruct (n <=? 6)%nat eqn:Hn;
          [apply Nat.leb_le in Hn|apply Nat.leb_gt in Hn]; lia.
    + run. replace (p - 0)%nat with p by lia.
      specialize (IH p (Z.shiftr val 8) s). cbv zeta in IH.
      destruct (rand_read n p _ s) as [l s1]. simpl in *.
      destruct IH as (Hl & Hb & Hd & Hw & Ht & Hs & Hlg & Hr & Hdr).
      split_and!; try done.
      * by rewrite Hl.
      * constructor; [|done]. apply Z.mod_pos_bound. lia.
Qed.

Lemma byte_of_shiftr v j : byte_of (Z.shiftr v 8) j = byte_of v (S j).
Proof.
  unfold byte_of. rewrite Z.shiftr_shiftr by lia. do 2 f_equal. lia.
Qed.

Lemma byte_of_0 v : v mod 256 = byte_of v 0.
Proof. unfold byte_of. by rewrite Z.shiftr_0_r. Qed.

Lemma rand_read_nth n : forall pos val s (i : nat),
  (i < n)%nat ->
  nth i (rand_read n pos val s).1 0
  = if (i <? pos)%nat then byte_of val i
    else byte_of (Z.land (source s (draws s + (i - pos) / 7)) rngMask) ((i - pos) mod 7).
Proof.
  induction n as [|n IH]; intros pos val s i Hi; [lia|].
  cbn [rand_read]. destruct pos as [|p].
  - run.
    specialize (IH 6%nat (Z.shiftr (Z.land (source s (draws s)) rngMask) 8)
      (mkState (db s) (wall s) (ticks s) (source s) (S (draws s)) (logs s) (rw s))).
    destruct (rand_read n 6 _ _) as [l s1]. simpl in *.
    destruct i as [|j].
    + simpl. rewrite Nat.add_0_r. apply byte_of_0.
    + rewrite (IH j) by lia. rewrite byte_of_shiftr, Nat.sub_0_r.
      destruct (j <? 6)%nat eqn:Hj; [apply Nat.ltb_lt in Hj|apply Nat.ltb_ge in Hj].
      * rewrite (Nat.div_small (S j) 7), (Nat.mod_small (S j) 7) by lia.
        by rewrite Nat.add_0_r.
      * assert (Hq : (S j / 7 = S ((j - 6) / 7))%nat).
        { replace (S j) with ((j - 6) + 1 * 7)%nat by lia.
          rewrite Nat.div_add by lia. lia. }
        assert (Hm : (S j mod 7 = (j - 6) mod 7)%nat).
        { replace (S j) with ((j - 6) + 1 * 7)%nat by lia.
          by rewrite Nat.Div0.mod_add. }
        rewrite Hq, Hm. do 4 f_equal. lia.
  - run. replace (p - 0)%nat with p by lia.
    specialize (IH p (Z.shiftr val 8) s).
    destruct (rand_read n p _ s) as [l s1]. simpl in *.
    destruct i as [|j]; [apply byte_of_0|].
    rewrite (IH j) by lia. rewrite byte_of_shiftr.
    change (S j <? S p)%nat with (j <? p)%nat.
    by change (S j - S p)%nat with (j - p)%nat.
Qed.

Lemma ldigit_hex k : 0 <= k < 16 -> is_hex_digit (ldigit k) = true.
Proof.
  intros Hk. unfold ldigit. assert (Hn : (Z.to_nat k < 16)%nat) by lia.
  destruct (Z.to_nat k) as [|n]; [reflexivity|].
  do 15 (destruct n as [|n]; [reflexivity|]). lia.
Qed.

Lemma length_hex data : String.length (hex data) = (2 * length data)%nat.
Proof. induction data as [|b r IH]; [done|]. simpl in *. lia. Qed.

Lemma hex_chars data :
  Forall (fun b => 0 <= b < 256) data -> all_chars is_hex_digit (hex data) = true.
Proof.
  induction 1 as [|b r Hb _ IH]; [done|]. cbn [hex all_chars].
  rewrite !ldigit_hex, IH; [done| |].
  - change 15 with (Z.ones 4). rewrite Z.land_ones by lia.
    apply Z.mod_pos_bound. lia.
  - rewrite Z.shiftr_div_pow2 by lia. change (2 ^ 4) with 16.
    split; [apply Z.div_pos; lia|apply Z.div_lt_upper_bound; lia].
Qed.

Lemma nth_ext_seq (l : list Z) (f : nat -> Z) :
  (forall i, (i < length l)%nat -> nth i l 0 = f i) -> l = map f (seq 0 (length l)).
Proof.
  intros Hf. apply (nth_ext _ _ 0 (f 0%nat)).
  - by rewrite length_map, length_seq.
  - intros i Hi. rewrite (map_nth f), seq_nth by done. by apply Hf.
Qed.

(** X3: [RandHex] never panics: [rand.Read] fills the whole slice and
    returns no error, so that neither of the two checks fires. It consumes
    random numbers and touches nothing else. *)
Theorem RandHex_never_panics (bytes : nat) s :
  let r := RandHex bytes s in
  (exists t, r.1 = inr t)
  /\ db r.2 = db s /\ ticks r.2 = ticks s /\ logs r.2 = logs s /\ rw r.2 = rw s.
Proof.
  unfold RandHex, rand_Read. cbv zeta.
  pose proof (rand_read_spec bytes 0 0 s) as Hr. cbv zeta in Hr.
  unfold mbind, M_bind, mret, M_ret.
  destruct (rand_read bytes 0 0 s) as [data s1]. simpl in *.
  destruct Hr as (Hl & Hb & Hd & Hw & Ht & Hs & Hlg & Hr & Hdr).
  rewrite Hl, Z.eqb_refl. simpl. split_and!; try done. by eexists.
Qed.

(** X4: the secret [RandHex] makes of a positive number of bytes has two
    characters for every byte, each a digit or a letter from [a] to [f],
    and costs one random number for every seven bytes or part of them. *)
Theorem RandHex_secret (bytes : nat) s :
  (0 < bytes)%nat ->
  exists t, (RandHex bytes s).1 = inr t
    /\ String.length t = (2 * bytes)%nat
    /\ all_chars is_hex_digit t = true
    /\ draws (exec (RandHex bytes) s) = (draws s + (bytes + 6) / 7)%nat.
Proof.
  intros Hpos. unfold exec, RandHex, rand_Read.
  pose proof (rand_read_spec bytes 0 0 s) as Hr. cbv zeta in Hr.
  unfold mbind, M_bind, mret, M_ret.
  destruct (rand_read bytes 0 0 s) as [data s1]. simpl in *.
  destruct Hr as (Hl & Hb & Hd & Hw & Ht & Hs & Hlg & Hr & Hdr).
  rewrite Hl, Z.eqb_refl. simpl. exists (Sprintf_02x data).
  assert (Sprintf_02x data = hex data) as -> by (destruct data; [simpl in Hl; lia|done]).
  split_and!; [done| | |].
  - by rewrite length_hex, Hl.
  - by apply hex_chars.
  - rewrite Hdr. destruct bytes; [lia|]. by rewrite Nat.sub_0_r.
Qed.

(** X5: the secret spelled out: its bytes are the seven low bytes of the
    successive 63-bit numbers drawn, the lowest first, written in
    hexadecimal; the top seven bits of every number are not used. *)
Theorem RandHex_bytes (bytes : nat) s :
  (0 < bytes)%nat ->
  (RandHex bytes s).1
  = inr (hex (map (fun i : nat =>
                     byte_of (Z.land (source s (draws s + i / 7)) rngMask) (i mod 7))
                  (seq 0 bytes))).
Proof.
  intros Hpos. unfold RandHex, rand_Read.
  pose proof (rand_read_spec bytes 0 0 s) as Hr. cbv zeta in Hr.
  pose proof (rand_read_nth bytes 0 0 s) as Hn.
  unfold mbind, M_bind, mret, M_ret.
  destruct (rand_read bytes 0 0 s) as [data s1]. simpl in *.
  destruct Hr as (Hl & _).
  rewrite Hl, Z.eqb_refl. simpl.
  assert (Sprintf_02x data = hex data) as -> by (destruct data; [simpl in Hl; lia|done]).
  do 2 f_equal. rewrite <- Hl. apply nth_ext_seq. intros i Hi.
  rewrite Hn by lia. by rewrite Nat.sub_0_r.
Qed.

End Secret.

(** ** The loop of the sweeper *)

Section Sweeping.
Context `{JSON}.

#[local] Arguments Expirer_visit : simpl never.

Lemma Expirer_cycle_frame s :
  let s' := exec Expirer_cycle s in
  source s' = source s /\ draws s' = draws s.
Proof.
  unfold Expirer_cycle, Expirer_tx, ForEach. run.
  destruct (db s !! "keys") as [m|] eqn:Hm; simpl; rewrite ?Hm; [|done].
  pose proof (Expirer_scan_spec (map_to_list m) [] [] s) as Hscan. cbv zeta in Hscan.
  destruct (forRange (map_to_list m) _ ([], []) s) as [[kd ud] s1]. simpl in *.
  destruct Hscan as (_ & _ & _ & Hs1 & Hdr1 & _).
  pose proof (Delete_all_spec "keys" kd s1) as Hdel. cbv zeta in Hdel.
  destruct (Delete_all _ kd s1) as [[] s2]. simpl in *.
  destruct Hdel as (_ & _ & _ & Hs2 & Hdr2 & _).
  destruct (0 <? Z.of_nat (length kd)); simpl;
    (destruct (db s2 !! "urls") as [mu|] eqn:Hu; simpl).
  1, 3: match goal with |- context [Delete_all _ ?u ?st] =>
          pose proof (Delete_all_spec "urls" u st) as Hdel; cbv zeta in Hdel;
          destruct (Delete_all _ u st) as [[] s4] end; simpl in *;
        destruct Hdel as (_ & _ & _ & Hs4 & Hdr4 & _); split; congruence.
  all: split; congruence.
Qed.

(** X6: a cycle that finds no bucket [keys] returns at once: the world
    after it is the world before it, clock and log included. *)
Theorem Expirer_cycle_without_keys s :
  db s !! "keys" = None -> exec Expirer_cycle s = s.
Proof.
  intros Hk. unfold Expirer_cycle, Expirer_tx. run. by rewrite Hk.
Qed.

Lemma Expirer_only_deletes_loop turns : forall s,
  let s' := exec (Expirer turns) s in
  wall s' = wall s /\ rw s' = rw s /\ source s' = source s /\ draws s' = draws s
  /\ (ticks s <= ticks s')%nat
  /\ forall b x v, stored (db s') b x = Some v -> stored (db s) b x = Some v.
Proof.
  induction turns as [|turns IH]; intros s.
  - simpl. run. by split_and!.
  - cbn [Expirer]. unfold time_Sleep.
    pose proof (Expirer_cycle_spec s) as Hc. cbv zeta in Hc.
    pose proof (Expirer_cycle_frame s) as Hf. cbv zeta in Hf.
    unfold exec in *. unfold mbind, M_bind, skip, mret, M_ret in *.
    destruct (Expirer_cycle s) as [[] s1]. simpl in *.
    specialize (IH s1). cbv zeta in IH.
    destruct (Expirer turns s1) as [[] s2]. simpl in *.
    destruct Hc as (Hw & Hr & Ht & kd & ud & Hst & _).
    destruct Hf as (Hs & Hd).
    destruct IH as (Hw2 & Hr2 & Hs2 & Hd2 & Ht2 & Hst2).
    split_and!; try congruence; try lia.
    intros b x v Hv. apply Hst2 in Hv. rewrite Hst in Hv. by case_decide.
Qed.

(** X7: however many turns its loop makes, [Expirer] only removes: what a
    bucket holds afterwards it held before under the same key. It writes no
    response and draws no random number. *)
Theorem Expirer_only_deletes turns s b x v :
  let s' := exec (Expirer turns) s in
  (stored (db s') b x = Some v -> stored (db s) b x = Some v)
  /\ rw s' = rw s /\ draws s' = draws s /\ wall s' = wall s /\ source s' = source s.
Proof.
  pose proof (Expirer_only_deletes_loop turns s) as Hl. cbv zeta in *.
  destruct Hl as (Hw & Hr & Hs & Hd & _ & Hst). split_and!; try done. apply Hst.
Qed.

Lemma Expirer_keeps_loop turns : forall s t v keyObj,
  monotone s ->
  stored (db s) "keys" t = Some v ->
  json_Unmarshal v = (keyObj, None) ->
  Before (Expiry keyObj) (now (exec (Expirer turns) s)) = false ->
  stored (db (exec (Expirer turns) s)) "keys" t = Some v.
Proof.
  induction turns as [|turns IH]; intros s t v keyObj Hmono Hv Hdec Hlive.
  - done.
  - pose proof (Expirer_cycle_spec s) as Hc. cbv zeta in Hc.
    pose proof (Expirer_only_deletes_loop turns (exec Expirer_cycle s)) as Hl.
    cbv zeta in Hl.
    assert (Hstep : exec (Expirer (S turns)) s
                    = exec (Expirer turns) (exec Expirer_cycle s)).
    { cbn [Expirer]. unfold time_Sleep, exec, mbind, M_bind, skip, mret, M_ret.
      destruct (Expirer_cycle s) as [[] s1]. simpl. by destruct (Expirer turns s1). }
    rewrite Hstep in *. set (s1 := exec Expirer_cycle s) in *.
    destruct Hc as (Hw & _ & Ht & kd & ud & Hst & Hsound & _).
    destruct Hl as (Hw2 & _ & _ & _ & Ht2 & _).
    apply (IH s1 t v keyObj); [by unfold monotone; rewrite Hw| |done|done].
    rewrite Hst, decide_False; [done|]. intros [[_ Hk]|[? _]]; [|done].
    destruct (Hsound t Hk) as (v' & Hv' & Hdue).
    rewrite Hv in Hv'. injection Hv' as <-.
    unfold due_within in Hdue. rewrite Hdec in Hdue. destruct Hdue as (i & Hi & Hb).
    unfold Before, now in *. rewrite Hw2, Hw in Hlive.
    apply Z.ltb_lt in Hb. apply Z.ltb_ge in Hlive.
    pose proof (Hmono i (ticks (exec (Expirer turns) s1)) ltac:(lia)). lia.
Qed.

Lemma Expirer_gone_loop turns s t v :
  monotone s -> (0 < turns)%nat ->
  stored (db s) "keys" t = Some v ->
  due (now s) v ->
  stored (db (exec (Expirer turns) s)) "keys" t = None
  /\ stored (db (exec (Expirer turns) s)) "urls" (Url (json_Unmarshal v).1) = None.
Proof.
  intros Hmono Hpos Hv Hdue. destruct turns as [|turns]; [lia|].
  assert (Hstep : exec (Expirer (S turns)) s
                  = exec (Expirer turns) (exec Expirer_cycle s)).
  { cbn [Expirer]. unfold time_Sleep, exec, mbind, M_bind, skip, mret, M_ret.
    destruct (Expirer_cycle s) as [[] s1]. simpl. by destruct (Expirer turns s1). }
  rewrite Hstep.
  pose proof (Expirer_cycle_spec s) as Hc. cbv zeta in Hc.
  pose proof (Expirer_only_deletes_loop turns (exec Expirer_cycle s)) as Hl.
  cbv zeta in Hl.
  destruct Hc as (_ & _ & _ & kd & ud & Hst & _ & Hcompl).
  destruct Hl as (_ & _ & _ & _ & _ & Hst2).
  destruct (Hcompl Hmono t v Hv Hdue) as [Hk Hu].
  split.
  - match goal with |- ?x = None => destruct x as [v'|] eqn:Hv'; [|done] end.
    apply Hst2 in Hv'. rewrite Hst, decide_True in Hv' by auto. done.
  - match goal with |- ?x = None => destruct x as [v'|] eqn:Hv'; [|done] end.
    apply Hst2 in Hv'. rewrite Hst, decide_True in Hv' by auto. done.
Qed.

(** X8: after one turn of the loop or more, a token whose value does not
    decode or whose record had expired when the loop started is gone, and
    so is the URL decoding left in the record; a record that has not
    expired by the end is still there. The clock does not run backwards. *)
Theorem Expirer_sweeps turns s t v keyObj err :
  monotone s -> (0 < turns)%nat ->
  stored (db s) "keys" t = Some v ->
  json_Unmarshal v = (keyObj, err) ->
  let s' := exec (Expirer turns) s in
  ((err <> None \/ Before (Expiry keyObj) (now s) = true) ->
     stored (db s') "keys" t = None /\ stored (db s') "urls" (Url keyObj) = None)
  /\ (err = None -> Before (Expiry keyObj) (now s') = false ->
      stored (db s') "keys" t = Some v).
Proof.
  intros Hmono Hpos Hv Hdec s'. split.
  - intros Hdue. destruct (Expirer_gone_loop turns s t v Hmono Hpos Hv) as [Hk Hu].
    { unfold due. rewrite Hdec. destruct err; [done|]. by destruct Hdue. }
    rewrite Hdec in Hu. by split.
  - intros -> Hlive. by apply Expirer_keeps_loop with keyObj.
Qed.

Lemma Expirer_scan_idle l : forall kd ud s,
  (forall k v, (k, v) ∈ l ->
     exists o, json_Unmarshal v = (o, None)
               /\ forall i : nat, (ticks s <= i < ticks s + length l)%nat ->
                    Before (Expiry o) (wall s i) = false) ->
  forRange l (fun kv => Expirer_visit kv.1 kv.2) (kd, ud) s
  = ((kd, ud), mkState (db s) (wall s) (ticks s + length l) (source s) (draws s)
                       (logs s) (rw s)).
Proof.
  induction l as [|[k v] l IH]; intros kd ud s Hl.
  - simpl. unfold mret, M_ret. rewrite Nat.add_0_r. by destruct s.
  - rewrite forRange_cons. cbn [fst snd].
    destruct (Hl k v) as (o & Hdec & Hlive); [apply elem_of_cons; by left|].
    unfold Expirer_visit at 1. rewrite Hdec. run.
    unfold now. rewrite (Hlive (ticks s)) by lia. simpl.
    rewrite IH; simpl.
    + do 2 f_equal. lia.
    + intros k' v' Hin. destruct (Hl k' v') as (o' & Hdec' & Hlive');
        [apply elem_of_cons; by right|].
      exists o'. split; [done|]. intros i Hi. apply Hlive'. lia.
Qed.

(** X9: a cycle over a bucket whose records all decode and are not found
    expired stores and logs nothing: the store and the log are as before.
    The clock has been read once for every record. *)
Theorem Expirer_cycle_idle s (m : gmap string string) :
  db s !! "keys" = Some m ->
  (forall k v, m !! k = Some v ->
     exists o, json_Unmarshal v = (o, None)
               /\ forall i : nat, (ticks s <= i < ticks s + size m)%nat ->
                    Before (Expiry o) (wall s i) = false) ->
  let s' := exec Expirer_cycle s in
  db s' = db s /\ logs s' = logs s /\ ticks s' = (ticks s + size m)%nat.
Proof.
  intros Hm Hl. unfold Expirer_cycle, Expirer_tx, ForEach. run.
  rewrite Hm. simpl. rewrite Hm.
  rewrite Expirer_scan_idle; cycle 1.
  { intros k v Hin. rewrite length_map_to_list.
    apply (Hl k). by apply elem_of_map_to_list in Hin. }
  unfold Delete_all. simpl. run.
  rewrite length_map_to_list.
  by destruct (db s !! "urls").
Qed.

Lemma Expirer_scan_urls l : forall kd ud s,
  let r := forRange l (fun kv => Expirer_visit kv.1 kv.2) (kd, ud) s in
  forall u, u ∈ r.1.2 ->
    u ∈ ud \/ exists k v, (k, v) ∈ l /\ k ∈ r.1.1 /\ Url (json_Unmarshal v).1 = u.
Proof.
  induction l as [|[k v] l IH]; intros kd ud s.
  - simpl. intros u Hu. by left.
  - cbv zeta. rewrite forRange_cons. cbn [fst snd].
    pose proof (Expirer_visit_spec k v kd ud s) as Hv. cbv zeta in Hv.
    destruct (Expirer_visit k v (kd, ud) s) as [[kd1 ud1] s1]. simpl in Hv.
    destruct Hv as (_ & _ & _ & _ & _ & Hv).
    specialize (IH kd1 ud1 s1). cbv zeta in IH.
    pose proof (Expirer_scan_spec l kd1 ud1 s1) as Hs. cbv zeta in Hs.
    destruct (forRange l _ (kd1, ud1) s1) as [[kd2 ud2] s2]. simpl in *.
    destruct Hs as (_ & _ & _ & _ & _ & _ & _ & _ & Hkd & _).
    intros u Hu. destruct (IH u Hu) as [Hu1|(k' & v' & Hin & Hk' & Hurl)].
    + assert (Hcase : (kd1, ud1) = (kd, ud)
                      \/ (kd1, ud1) = ((kd ++ [k])%list, (ud ++ [Url (json_Unmarshal v).1])%list)).
      { destruct (json_Unmarshal v) as [o [e|]]; destruct Hv as [_ Hv]; simpl.
        - by right.
        - destruct (Before (Expiry o) (now s)); [by right|by left]. }
      destruct Hcase as [[= -> ->]|[= -> ->]]; [by left|].
      apply elem_of_app in Hu1 as [?|Hu1]; [by left|].
      apply list_elem_of_singleton in Hu1 as ->. right. exists k, v.
      split_and!; [apply elem_of_cons; by left| |done].
      apply Hkd. apply elem_of_app. right. by apply list_elem_of_singleton.
    + right. exists k', v'. split_and!; [apply elem_of_cons; by right|done|done].
Qed.

(** X10: a cycle removes the binding of a URL only along with a record:
    some token it removed in the same cycle held a value that decodes,
    as far as it does, to that URL. *)
Theorem Expirer_cycle_unbinds s u t :
  stored (db s) "urls" u = Some t ->
  stored (db (exec Expirer_cycle s)) "urls" u = None ->
  exists k v, stored (db s) "keys" k = Some v
              /\ stored (db (exec Expirer_cycle s)) "keys" k = None
              /\ Url (json_Unmarshal v).1 = u.
Proof.
  intros Hu. unfold Expirer_cycle, Expirer_tx, ForEach. run.
  destruct (db s !! "keys") as [m|] eqn:Hm; simpl; rewrite ?Hm; [|by rewrite Hu].
  pose proof (Expirer_scan_spec (map_to_list m) [] [] s) as Hscan. cbv zeta in Hscan.
  pose proof (Expirer_scan_urls (map_to_list m) [] [] s) as Hurls. cbv zeta in Hurls.
  destruct (forRange (map_to_list m) _ ([], []) s) as [[kd ud] s1]. simpl in *.
  destruct Hscan as (Hd1 & _).
  pose proof (Delete_all_spec "keys" kd s1) as Hdel. cbv zeta in Hdel.
  destruct (Delete_all _ kd s1) as [[] s2]. simpl in *.
  destruct Hdel as (_ & _ & _ & _ & _ & _ & Hst2).
  assert (Hkeys : forall k v, (k, v) ∈ map_to_list m <-> stored (db s) "keys" k = Some v).
  { intros k v. rewrite elem_of_map_to_list. unfold stored. by rewrite Hm. }
  assert (Hfin : forall s4 : State,
            (forall b x, stored (db s4) b x
                         = if decide ((b = "keys" /\ x ∈ kd) \/ (b = "urls" /\ x ∈ ud))
                           then None else stored (db s) b x) ->
            stored (db s4) "urls" u = None ->
            exists k v, stored (db s) "keys" k = Some v
                        /\ stored (db s4) "keys" k = None
                        /\ Url (json_Unmarshal v).1 = u).
  { intros s4 Hst4 Hgone. rewrite Hst4 in Hgone.
    case_decide as Hd; [|by rewrite Hu in Hgone].
    destruct Hd as [[? _]|[_ Hin]]; [done|].
    destruct (Hurls u Hin) as [Hn|(k & v & Hkv & Hk & Hurl)]; [by apply elem_of_nil in Hn|].
    exists k, v. split_and!; [by apply Hkeys| |done].
    rewrite Hst4, decide_True; [done|by left]. }
  destruct (0 <? Z.of_nat (length kd)); simpl;
    (destruct (db s2 !! "urls") as [mu|] eqn:Hmu; simpl).
  1, 3: match goal with |- context [Delete_all _ ?l ?st] =>
          pose proof (Delete_all_spec "urls" l st) as Hdel; cbv zeta in Hdel;
          destruct (Delete_all _ l st) as [[] s4] end; simpl in *;
        destruct Hdel as (_ & _ & _ & _ & _ & _ & Hst4);
        apply Hfin; intros b x; rewrite Hst4, Hst2, Hd1;
        repeat case_decide; try done; exfalso; tauto.
  all: exfalso;
    assert (Hnone : stored (db s) "urls" u = None)
      by (rewrite <- Hd1; specialize (Hst2 "urls" u);
          rewrite decide_False in Hst2 by (by intros [? _]);
          rewrite <- Hst2; by apply stored_None_bucket);
    by rewrite Hu in Hnone.
Qed.

End Sweeping.

(** ** The minter, continued *)

Section Minting.
Context `{JSON}.

Lemma Mint_tx_outcome url key s :
  let r := Mint_tx url (mkTx true) key s in
  let t := match stored (db s) "urls" url with Some k => k | None => key end in
  r.1.2 = None
  <-> exists data,
        json_Marshal {| Url := url; Expiry := Add (now s) (Hour * 24 * 30) |} = inr data
        /\ 0 < len url <= MaxKeySize
        /\ 0 < len t <= MaxKeySize
        /\ len data <= MaxValueSize.
Proof.
  destruct s as [d w tk src dr lg r0]. unfold Mint_tx, CreateBucketIfNotExists, Put. run.
  unfold now, set_db; simpl.
  assert (Hlen : forall x : string, 0 <= len x) by (intros x; unfold len; lia).
  pose proof (Hlen url) as Hlu. pose proof (Hlen key) as Hlk.
  destruct (d !! "urls") as [mu|] eqn:Hu; simpl;
    rewrite ?lookup_insert_ne by done;
    (destruct (d !! "keys") as [mk|] eqn:Hk; simpl);
    rewrite ?stored_insert_bucket; simpl;
    rewrite ?(stored_None_bucket d "urls") by done;
    (destruct (json_Marshal _) as [e|data] eqn:Hm; simpl;
       [split; [done|by intros (? & ? & _)]|]);
    set (t := match stored d "urls" url with Some k => k | None => key end);
    pose proof (Hlen t) as Hlt; pose proof (Hlen data) as Hld;
    repeat (case_match; simpl in *; simplify_eq);
    repeat match goal with
           | Hb : (_ =? _) = true |- _ => apply Z.eqb_eq in Hb
           | Hb : (_ =? _) = false |- _ => apply Z.eqb_neq in Hb
           | Hb : (_ <? _) = true |- _ => apply Z.ltb_lt in Hb
           | Hb : (_ <? _) = false |- _ => apply Z.ltb_ge in Hb
           end;
    unfold MaxKeySize, MaxValueSize in *;
    (split; [intros Hn; try discriminate Hn; exists data; split_and!; try done; lia
            |intros (data' & [= <-] & ? & ? & ?); try done; exfalso; lia]).
Qed.

Lemma Mint_full req s :
  ParseForm req = None -> FormValue req "url" <> "" ->
  let url := FormValue req "url" in
  let s' := exec (Mint req) s in
  let t := match stored (db s) "urls" url with
           | Some k => k
           | None => FormatInt (Z.land (source s (draws s)) rngMask) 36
           end in
  let fits := exists data,
                json_Marshal {| Url := url; Expiry := Add (now s) (Hour * 24 * 30) |} = inr data
                /\ 0 < len url <= MaxKeySize
                /\ 0 < len t <= MaxKeySize
                /\ len data <= MaxValueSize in
  draws s' = S (draws s)
  /\ ((fits /\ rw s' = (rw s ++ [RwWriteHeader StatusOK; RwWrite t])%list
       /\ logs s' = logs s)
      \/ (~ fits
          /\ rw s' = (rw s ++ [RwError "internal server error" StatusInternalServerError;
                               RwWriteHeader StatusOK; RwWrite t])%list
          /\ exists e,
               logs s' = (logs s ++ [LogUpdateError e;
                                     LogAccess req (wall s (S (ticks s)))
                                       StatusInternalServerError])%list)).
Proof.
  intros HP Hurl. cbv zeta. unfold Mint. rewrite HP.
  destruct (decide (FormValue req "url" = "")) as [|_]; [done|]. run.
  match goal with |- context [Mint_tx ?u ?tx ?c ?s1] =>
    pose proof (Mint_tx_spec u c s1) as Hspec; cbv zeta in Hspec;
    pose proof (Mint_tx_outcome u c s1) as Hout; cbv zeta in Hout;
    destruct (Mint_tx u tx c s1) as [[key err] s2] end.
  unfold now in *. simpl in *.
  destruct Hspec as (-> & Hw & Ht & Hsrc & Hdr & Hlg & Hrw & _).
  destruct err as [e|]; simpl.
  - split; [done|]. right. split_and!.
    + intros Hfits. apply Hout in Hfits. done.
    + rewrite Hrw. by rewrite <- !app_assoc.
    + exists e. rewrite Hlg, Hw, Ht. by rewrite <- !app_assoc.
  - split; [done|]. left. split_and!.
    + by apply Hout.
    + rewrite Hrw. by rewrite <- !app_assoc.
    + done.
Qed.

(** X11: once the form carries a URL, [Mint] answers with the token and no
    error exactly when the record encodes, the URL and the token are keys
    bolt takes (not empty, 32768 bytes at most) and the encoded record is a
    value bolt takes. *)
Theorem Mint_succeeds_iff req s :
  ParseForm req = None -> FormValue req "url" <> "" ->
  let url := FormValue req "url" in
  let t := match stored (db s) "urls" url with
           | Some k => k
           | None => FormatInt (Z.land (source s (draws s)) rngMask) 36
           end in
  rw (exec (Mint req) s) = (rw s ++ [RwWriteHeader StatusOK; RwWrite t])%list
  <-> exists data,
        json_Marshal {| Url := url; Expiry := Add (now s) (Hour * 24 * 30) |} = inr data
        /\ 0 < len url <= MaxKeySize
        /\ 0 < len t <= MaxKeySize
        /\ len data <= MaxValueSize.
Proof.
  intros HP Hurl. cbv zeta.
  pose proof (Mint_full req s HP Hurl) as Hf. cbv zeta in Hf.
  destruct Hf as (_ & [(Hfits & Hrw & _)|(Hno & Hrw & _)]).
  - by split.
  - split; [|done]. rewrite Hrw. intros Heq. by apply app_inv_head in Heq.
Qed.

(** X12: a minting that is answered without error leaves no line in the
    log, [httpLog] being called on the error paths only, and has drawn one
    random number, also when the URL was bound already and the candidate
    is dropped. *)
Theorem Mint_success_is_not_logged req s t :
  rw (exec (Mint req) s) = (rw s ++ [RwWriteHeader StatusOK; RwWrite t])%list ->
  logs (exec (Mint req) s) = logs s /\ draws (exec (Mint req) s) = S (draws s).
Proof.
  intros Hrw.
  destruct (ParseForm req) as [e|] eqn:HP.
  { destruct (Mint_rejects req s) as (_ & msg & Hrej); [left; by rewrite HP|].
    rewrite Hrej in Hrw. by apply app_inv_head in Hrw. }
  destruct (decide (FormValue req "url" = "")) as [Hu|Hu].
  { destruct (Mint_rejects req s) as (_ & msg & Hrej); [by right|].
    rewrite Hrej in Hrw. by apply app_inv_head in Hrw. }
  pose proof (Mint_full req s HP Hu) as Hf. cbv zeta in Hf.
  destruct Hf as (Hd & [(_ & _ & Hlg)|(_ & Hfail & _)]); [done|].
  rewrite Hfail in Hrw. by apply app_inv_head in Hrw.
Qed.

(** X13: a request whose form does not parse, or carries no URL, is
    answered 400 before anything else is done: the store is untouched and
    no random number is drawn. The form is looked at first, so that its
    message wins when both are wrong. *)
Theorem Mint_bad_request req s :
  ParseForm req <> None \/ FormValue req "url" = "" ->
  let s' := exec (Mint req) s in
  db s' = db s /\ draws s' = draws s
  /\ rw s' = (rw s ++ [RwError (match ParseForm req with
                                 | Some _ => "could not parse form data"
                                 | None => "missing `url`"
                                 end) StatusBadRequest])%list
  /\ logs s' = (logs s ++ [match ParseForm req with
                            | Some e => LogParsingForm e
                            | None => LogMissingUrl
                            end;
                            LogAccess req (now s) StatusBadRequest])%list.
Proof.
  intros Hrej. unfold Mint. destruct (ParseForm req) as [e|]; run.
  - split_and!; try done. by rewrite <- app_assoc.
  - destruct Hrej as [|Hrej]; [done|]. rewrite Hrej. simpl.
    split_and!; try done. by rewrite <- app_assoc.
Qed.

(** X14: whatever the request, [Mint] changes two entries at most: what
    bucket [urls] holds under the URL and what bucket [keys] holds under
    the token it answers with. *)
Theorem Mint_touches_two_entries req s b x :
  let url := FormValue req "url" in
  let t := match stored (db s) "urls" url with
           | Some k => k
           | None => FormatInt (Z.land (source s (draws s)) rngMask) 36
           end in
  (b, x) <> ("urls", url) -> (b, x) <> ("keys", t) ->
  stored (db (exec (Mint req) s)) b x = stored (db s) b x.
Proof.
  cbv zeta. intros Hu Ht.
  destruct (ParseForm req) as [e|] eqn:HP.
  { destruct (Mint_rejects req s) as (-> & _); [left; by rewrite HP|done]. }
  destruct (decide (FormValue req "url" = "")) as [He|He].
  { destruct (Mint_rejects req s) as (-> & _); [by right|done]. }
  pose proof (Mint_cases req s HP He) as Hc. cbv zeta in Hc.
  destruct Hc as (_ & _ & [(_ & _ & data & _ & _ & _ & Hurls & Hkeys & Hrest)
                          |(_ & -> & _)]); [|done].
  destruct (decide (b = "urls")) as [->|Hb1].
  { rewrite Hurls. rewrite decide_False; [done|]. by intros ->. }
  destruct (decide (b = "keys")) as [->|Hb2].
  { rewrite Hkeys. rewrite decide_False; [done|]. by intros ->. }
  by apply Hrest.
Qed.

End Minting.

(** ** The server in service *)

Section Serving.
Context `{JSON}.

Lemma withAuth_cases secret f req s :
  withAuth secret f req s = f (inner req) s
  \/ (db (exec (withAuth secret f req) s) = db s
      /\ wall (exec (withAuth secret f req) s) = wall s
      /\ source (exec (withAuth secret f req) s) = source s).
Proof.
  unfold withAuth. destruct (_ || _); [right; run; done|by left].
Qed.

Lemma Mint_tokens_wf req s : tokens_wf (db s) -> tokens_wf (db (exec (Mint req) s)).
Proof.
  intros Hwf.
  destruct (ParseForm req) as [e|] eqn:HP.
  { destruct (Mint_rejects req s) as (-> & _); [left; by rewrite HP|done]. }
  destruct (decide (FormValue req "url" = "")) as [Hu|Hu].
  { destruct (Mint_rejects req s) as (-> & _); [by right|done]. }
  pose proof (Mint_cases req s HP Hu) as Hc. cbv zeta in Hc.
  destruct Hc as (_ & _ & [(_ & _ & data & _ & _ & _ & Hurls & _)|(_ & -> & _)]); [|done].
  intros u t. rewrite Hurls. case_decide; [|apply Hwf].
  intros [= <-]. destruct (stored (db s) "urls" (FormValue req "url")) as [k|] eqn:Hk.
  - by apply Hwf in Hk.
  - destruct (FormatInt_63 _ (Int63_range (source s (draws s)))) as (_ & Hc & Hl).
    by split.
Qed.

Lemma handle_wf secret e s :
  bolt_wf (db s) /\ tokens_wf (db s) ->
  bolt_wf (db (exec (handle secret e) s)) /\ tokens_wf (db (exec (handle secret e) s)).
Proof.
  intros [Hb Ht]. destruct e as [req|req|]; simpl.
  - by rewrite Serve_db.
  - destruct (withAuth_cases secret Mint req s) as [Heq|(-> & _)]; [|done].
    unfold exec. rewrite Heq. split; [by apply Mint_bolt_wf|by apply Mint_tokens_wf].
  - split; [by apply Expirer_cycle_bolt_wf|].
    intros u t Hu. apply Expirer_cycle_only_deletes in Hu. by apply Ht in Hu.
Qed.

(** X15: whatever requests are answered and turns of the sweeper made,
    in whatever order, no bucket comes to hold the empty key and every URL
    stays bound to a token of one to thirteen digits of base 36. *)
Theorem service_keeps_store_wf secret es s :
  bolt_wf (db s) -> tokens_wf (db s) ->
  bolt_wf (db (exec (service secret es) s))
  /\ tokens_wf (db (exec (service secret es) s)).
Proof.
  intros Hb Ht. assert (Hwf := conj Hb Ht). clear Hb Ht.
  revert s Hwf. induction es as [|e es IH]; intros s Hwf; [done|].
  assert (Hstep : exec (service secret (e :: es)) s
                  = exec (service secret es) (exec (handle secret e) s)).
  { cbn [service]. unfold exec, mbind, M_bind.
    by destruct (handle secret e s) as [[] s1]. }
  rewrite Hstep. apply IH. by apply handle_wf.
Qed.

(** X16: in a store where the URLs are bound to such tokens, [Mint]
    succeeds for every URL bolt takes as a key whose record encodes to a
    value bolt takes, bound already or not: it answers with a token, binds
    the URL to it and stores the record under it. *)
Theorem Mint_succeeds_in_service req s data :
  tokens_wf (db s) ->
  ParseForm req = None ->
  0 < len (FormValue req "url") <= MaxKeySize ->
  json_Marshal {| Url := FormValue req "url";
                  Expiry := Add (now s) (Hour * 24 * 30) |} = inr data ->
  len data <= MaxValueSize ->
  let s' := exec (Mint req) s in
  exists t, token_wf t
    /\ rw s' = (rw s ++ [RwWriteHeader StatusOK; RwWrite t])%list
    /\ stored (db s') "urls" (FormValue req "url") = Some t
    /\ stored (db s') "keys" t = Some data.
Proof.
  intros Hwf HP Hlen Hm Hdata s'.
  assert (Hu : FormValue req "url" <> "").
  { intros Hu. rewrite Hu in Hlen. vm_compute in Hlen. by destruct Hlen. }
  pose proof (Mint_full req s HP Hu) as Hf. cbv zeta in Hf.
  pose proof (Mint_cases req s HP Hu) as Hc. cbv zeta in Hc. fold s' in Hf, Hc.
  set (t := match stored (db s) "urls" (FormValue req "url") with
            | Some k => k
            | None => FormatInt (Z.land (source s (draws s)) rngMask) 36
            end) in *.
  assert (Ht : token_wf t).
  { subst t. destruct (stored (db s) "urls" (FormValue req "url")) as [k|] eqn:Hk.
    - by apply Hwf in Hk.
    - destruct (FormatInt_63 _ (Int63_range (source s (draws s)))) as (_ & Hc' & Hl).
      by split. }
  exists t. split; [done|].
  destruct Hf as (_ & [(_ & Hrw & _)|(Hno & _)]).
  - split; [done|].
    destruct Hc as (_ & _ & [(_ & _ & data' & Hm' & _ & _ & Hurls & Hkeys & _)|(Hfail & _)]).
    + rewrite Hm in Hm'. injection Hm' as <-.
      rewrite Hurls, Hkeys. by rewrite !decide_True.
    + rewrite Hfail in Hrw. by apply app_inv_head in Hrw.
  - exfalso. apply Hno. exists data. split_and!; try done; try lia.
    + destruct Ht as [Hl _]. unfold len. lia.
    + destruct Ht as [Hl _]. unfold len, MaxKeySize. lia.
Qed.

(** X17: [Serve] always answers, writes one access-log line for every
    answer it sends, with the status of that answer and in the same order,
    and draws no random number. *)
Theorem Serve_logs_what_it_answers req s :
  let s' := exec (Serve req) s in
  exists lines answers,
    logs s' = (logs s ++ lines)%list /\ rw s' = (rw s ++ answers)%list
    /\ answers <> []
    /\ omap access_status lines = omap status_of answers
    /\ draws s' = draws s.
Proof.
  unfold Serve, Serve_tx. run.
  destruct (db s !! "keys") as [m|]; simpl.
  2: { eexists [_], [_]. by split_and!. }
  destruct (stored (db s) "keys" _) as [v|]; simpl.
  2: { eexists [_], [_]. by split_and!. }
  destruct (json_Unmarshal v) as [o [e|]]; simpl.
  { eexists [_; _], [_]. rewrite <- !app_assoc. by split_and!. }
  destruct (Before _ _); simpl.
  - eexists [_; _; _], [_; _]. rewrite <- !app_assoc. by split_and!.
  - eexists [_], [_]. by split_and!.
Qed.

(** X18: the functions [Serve] and [Expirer] run in their transactions
    return [nil] on every path, so that the branches that log an error of
    [db.View] and of [db.Update] are taken for a failure of bolt itself
    only. *)
Theorem transactions_return_nil req tx s :
  (Serve_tx req tx s).1 = None /\ (Expirer_tx tx tt s).1.2 = None.
Proof.
  split.
  - unfold Serve_tx. run.
    repeat (case_match; simpl in *; simplify_eq); done.
  - unfold Expirer_tx, ForEach. run.
    destruct (db s !! "keys") as [m|] eqn:Hm; simpl; rewrite ?Hm; [|done].
    match goal with |- context [forRange ?l ?f ?a s] =>
      destruct (forRange l f a s) as [[kd ud] s1] end. simpl.
    destruct (Delete_all _ kd s1) as [[] s2]. simpl.
    destruct (0 <? _); simpl; (destruct (db s2 !! "urls"); simpl; [|done]).
    all: match goal with |- context [Delete_all ?b ?u ?st] =>
           by destruct (Delete_all b u st) as [[] s4] end.
Qed.

End Serving.

(** ** Minting, sweeping and resolving together *)

Section Together.
Context `{JSONLaws}.

(** X19: a URL minted without error is still resolved after any number of
    turns of the sweeper, as long as the thirty days have not passed when
    it is asked for. The clock does not run backwards. *)
Theorem Mint_survives_sweeps req s t turns req' :
  monotone s ->
  rw (exec (Mint req) s) = (rw s ++ [RwWriteHeader StatusOK; RwWrite t])%list ->
  TrimLeft (URL_Path req') "/" = t ->
  let s1 := exec (Mint req) s in
  let s2 := exec (Expirer turns) s1 in
  Before (Add (now s) (Hour * 24 * 30)) (now s2) = false ->
  rw (exec (Serve req') s2)
  = (rw s2 ++ [RwRedirect (FormValue req "url") StatusMovedPermanently])%list.
Proof.
  intros Hmono Hrw Hkey s1 s2 Hlive.
  destruct (Mint_answer_ok req s t Hrw)
    as (_ & _ & _ & Hw1 & _ & data & Hm & _ & Hkeys).
  apply json_roundtrip in Hm.
  apply (Serve_live req' s2 data {| Url := FormValue req "url";
                                    Expiry := Add (now s) (Hour * 24 * 30) |});
    [|done|done].
  rewrite Hkey. subst s2.
  apply Expirer_keeps_loop with {| Url := FormValue req "url";
                                   Expiry := Add (now s) (Hour * 24 * 30) |};
    [by unfold monotone; subst s1; rewrite Hw1| |done|done].
  subst s1. rewrite Hkeys. by rewrite decide_True.
Qed.

(** X20: once the sweeper has made a turn, a token whose value did not
    decode or whose record had expired is answered with not found and
    nothing else. The clock does not run backwards. *)
Theorem Expirer_then_Serve req s v (turns : nat) :
  monotone s -> (0 < turns)%nat ->
  stored (db s) "keys" (TrimLeft (URL_Path req) "/") = Some v ->
  due (now s) v ->
  rw (exec (Serve req) (exec (Expirer turns) s)) = (rw s ++ [RwNotFound])%list.
Proof.
  intros Hmono Hpos Hv Hdue.
  pose proof (Expirer_only_deletes_loop turns s) as Hl. cbv zeta in Hl.
  destruct Hl as (_ & Hrw & _). rewrite <- Hrw.
  apply Serve_absent.
  destruct (Expirer_gone_loop turns s _ v Hmono Hpos Hv Hdue) as [Hgone _]. exact Hgone.
Qed.

End Together.

(** * Properties of the client *)

Section ClientFacts.
Import Client.

(** X21: [Shorten] either remembers or gives up: after a call, either the
    cache holds the value returned, and every later call for the same text
    returns it again without changing anything, or the text itself was
    returned after one request and the cache is as before. *)
Theorem Shorten_remembers key subject w :
  let r := Shorten key subject w in
  (cache r.2 !! subject = Some r.1
   /\ forall key', Shorten key' subject r.2 = (r.1, r.2))
  \/ (r.1 = subject /\ cache r.2 = cache w /\ cache w !! subject = None
      /\ length (sent r.2) = S (length (sent w))).
Proof.
  unfold Shorten at 1. cbv zeta.
  destruct (cache w !! subject) as [ret|] eqn:Hc; simpl.
  { left. split; [done|]. intros key'. unfold Shorten. by rewrite Hc. }
  destruct (remote w _ _) as [err|code [err|body]]; simpl.
  1, 2: right; split_and!; try done; rewrite length_app; simpl; lia.
  destruct (Z.quot code 100 =? 2); simpl.
  - left. split; [by rewrite lookup_insert_eq|].
    intros key'. unfold Shorten. simpl. by rewrite lookup_insert_eq.
  - right. split_and!; try done. rewrite length_app. simpl. lia.
Qed.

(** X22: [Shorten] never drops or replaces what the cache holds, and sends
    one request at most: a [GET] to the minting address with the key as
    bearer. *)
Theorem Shorten_cache_grows key subject w :
  let w' := (Shorten key subject w).2 in
  (forall k v, cache w !! k = Some v -> cache w' !! k = Some v)
  /\ (sent w' = sent w
      \/ sent w' = (sent w ++ [{| Method := "GET"; RawURL := pbUrl_String subject;
                                  Authorization := "bearer " +:+ key |}])%list)
  /\ remote w' = remote w.
Proof.
  unfold Shorten. cbv zeta.
  destruct (cache w !! subject) as [ret|] eqn:Hc; simpl.
  { split_and!; [done|by left|done]. }
  destruct (remote w _ _) as [err|code [err|body]]; simpl.
  1, 2: split_and!; [done|by right|done].
  destruct (Z.quot code 100 =? 2); simpl; (split_and!; [|by right|done]); [|done].
  intros k v Hk. rewrite lookup_insert_ne; [done|]. intros <-. by rewrite Hc in Hk.
Qed.

(** X23: for a text that is not in the cache, the status of a response
    that could be read decides: from 200 to 299 the short link made of the
    body is returned and remembered, and nothing is logged; with any other
    status the text itself is returned, nothing is remembered and the body
    is logged. *)
Theorem Shorten_reads_status key subject w code body :
  cache w !! subject = None ->
  remote w (length (sent w))
    {| Method := "GET"; RawURL := pbUrl_String subject;
       Authorization := "bearer " +:+ key |} = Response code (inr body) ->
  let r := Shorten key subject w in
  (200 <= code < 300 ->
     r.1 = "https://p-b.us/" +:+ body
     /\ cache r.2 = <[subject := "https://p-b.us/" +:+ body]> (cache w)
     /\ printed r.2 = printed w)
  /\ (~ 200 <= code < 300 ->
      r.1 = subject /\ cache r.2 = cache w
      /\ printed r.2 = (printed w ++ [LogNon2XX body])%list).
Proof.
  intros Hc Hr. unfold Shorten. cbv zeta. rewrite Hc, Hr.
  destruct (Z.quot code 100 =? 2) eqn:Hq; simpl.
  - apply Z.eqb_eq in Hq. split; [done|]. intros Hno. exfalso. apply Hno.
    pose proof (Z.quot_rem' code 100). pose proof (Z.rem_bound_abs code 100 ltac:(lia)).
    destruct (Z.le_gt_cases 0 code) as [Hpos|Hneg].
    + pose proof (Z.rem_bound_pos code 100 Hpos ltac:(lia)). lia.
    + pose proof (Z.quot_opp_l code 100 ltac:(lia)).
      pose proof (Z.quot_pos (- code) 100 ltac:(lia) ltac:(lia)). lia.
  - apply Z.eqb_neq in Hq. split; [|done]. intros Hyes. exfalso. apply Hq.
    symmetry. apply (Z.quot_unique code 100 2 (code - 200)); lia.
Qed.

(** X24: the request [Shorten] sends passes the server's [withAuth]
    exactly when the client's key is the server's secret; otherwise it is
    answered 401 and the store is left alone. *)
Theorem Shorten_authorizes key subject w secret f form s :
  cache w !! subject = None ->
  exists req,
    sent (Shorten key subject w).2 = (sent w ++ [req])%list
    /\ (key = secret -> withAuth secret f (received req form) s = f form s)
    /\ (key <> secret ->
        rw (exec (withAuth secret f (received req form)) s)
        = (rw s ++ [RwError "unauthorized" StatusUnauthorized])%list
        /\ db (exec (withAuth secret f (received req form)) s) = db s).
Proof.
  intros Hc. eexists. split.
  { unfold Shorten. rewrite Hc.
    destruct (remote w _ _) as [err|code [err|body]]; simpl; [done|done|].
    by destruct (Z.quot code 100 =? 2). }
  unfold withAuth, received. cbn [Header_Get inner Authorization].
  change (String.eqb (ToLower "authorization") "authorization") with true.
  cbv iota.
  change ("bearer " +:+ key) with ("bearer" +:+ " " +:+ key).
  rewrite (SplitN_first_space "bearer" key) by done. cbn [length nth].
  change (Z.of_nat 2 =? 2) with true.
  change (String.eqb (ToLower "bearer") "bearer") with true.
  cbn [negb orb].
  destruct (String.eqb key secret) eqn:Hk; cbn [negb].
  - apply String.eqb_eq in Hk. by split.
  - apply String.eqb_neq in Hk. split; [done|]. intros _. run. done.
Qed.

Lemma QueryUnescape_step c x :
  QueryUnescape
    (if Ascii.eqb c " " then String "+" x
     else if shouldEscape c
     then let n := Z.of_nat (nat_of_ascii c) in
          String "%" (String (upperdigit (Z.shiftr n 4))
                        (String (upperdigit (Z.land n 15)) x))
     else String c x)
  = match QueryUnescape x with
    | Some t => Some (String c t)
    | None => None
    end.
Proof.
  destruct c as [[] [] [] [] [] [] [] []]; reflexivity.
Qed.

Lemma QueryUnescape_QueryEscape s : QueryUnescape (QueryEscape s) = Some s.
Proof.
  induction s as [|c r IH]; [done|].
  cbn [QueryEscape]. by rewrite QueryUnescape_step, IH.
Qed.

(** X25: the request [Shorten] sends for a text that is not in the cache
    is a [GET] of the minting address with a query under [url] that reads
    back, unescaped, as the text. *)
Theorem Shorten_asks_for_subject key subject w :
  cache w !! subject = None ->
  exists req query,
    sent (Shorten key subject w).2 = (sent w ++ [req])%list
    /\ Method req = "GET"
    /\ RawURL req = "https://p-b.us/mint?url=" +:+ query
    /\ QueryUnescape query = Some subject.
Proof.
  intros Hc. eexists _, (QueryEscape subject). split_and!.
  - unfold Shorten. rewrite Hc.
    destruct (remote w _ _) as [err|code [err|body]]; simpl; [done|done|].
    by destruct (Z.quot code 100 =? 2).
  - done.
  - done.
  - apply QueryUnescape_QueryEscape.
Qed.

End ClientFacts.

(** * The server at work

    The concrete encoding obeys the law of [JSON]; with it the server runs
    in the worlds of [Demo], which the statements above are tried on. *)

Import Plain Demo.

Lemma Plain_readTime_showTime t : Plain.readTime (Plain.showTime t) = Some t.
Proof.
  unfold Plain.readTime, Plain.showTime. rewrite NilEmpty.isi.
  by rewrite DecimalZ.of_to.
Qed.

Lemma Plain_decodeKey_encodeKey url t :
  Plain.decodeKey (Plain.encodeKey url t) = ({| Url := url; Expiry := t |}, None).
Proof.
  induction url as [|c r IH]; simpl.
  - by rewrite Plain_readTime_showTime.
  - by rewrite IH.
Qed.

Lemma Plain_roundtrip k data :
  Plain.Marshal k = inr data -> Plain.decodeKey data = (k, None).
Proof.
  unfold Plain.Marshal. destruct k as [url t]; simpl.
  case_match; [done|]. intros [= <-]. apply Plain_decodeKey_encodeKey.
Qed.

#[global] Instance Plain_laws : JSONLaws Plain.json.
Proof. exact Plain_roundtrip. Qed.

Lemma clock_monotone : monotone_wall clock.
Proof. intros i j Hij. unfold clock. lia. Qed.

Lemma Serve_expired_still_redirects_witness :
  rw (exec (Serve (visit "/abc")) stale)
  = [RwNotFound; RwRedirect "http://a" StatusMovedPermanently]
  /\ db (exec (Serve (visit "/abc")) stale) = db stale.
Proof.
  apply (Serve_expired_still_redirects (visit "/abc") stale
           (Plain.encodeKey "http://a" (Add (clock 0) (Hour * 24 * 30)))
           {| Url := "http://a"; Expiry := Add (clock 0) (Hour * 24 * 30) |});
    vm_compute; reflexivity.
Defined.

Lemma Expirer_cycle_sweeps_witness :
  (stored (db (exec Expirer_cycle shelf)) "keys" "old" = None
   /\ stored (db (exec Expirer_cycle shelf)) "urls" "http://old" = None)
  /\ (stored (db (exec Expirer_cycle shelf)) "keys" "new"
      = Some (Plain.encodeKey "http://new" (clock 0 + Hour))
      /\ rw (exec (Serve (visit "/new")) (exec Expirer_cycle shelf))
         = [RwRedirect "http://new" StatusMovedPermanently]).
Proof.
  split.
  - apply (Expirer_cycle_sweeps shelf "old"
             (Plain.encodeKey "http://old" (clock 0 - 1000000000))
             {| Url := "http://old"; Expiry := clock 0 - 1000000000 |} None).
    + exact clock_monotone.
    + vm_compute; reflexivity.
    + vm_compute; reflexivity.
    + right. vm_compute; reflexivity.
  - destruct (Expirer_cycle_sweeps shelf "new"
                (Plain.encodeKey "http://new" (clock 0 + Hour))
                {| Url := "http://new"; Expiry := clock 0 + Hour |} None)
      as [_ Hlive].
    + exact clock_monotone.
    + vm_compute; reflexivity.
    + vm_compute; reflexivity.
    + destruct Hlive as [Hkept Hserve]; [reflexivity|vm_compute; reflexivity|].
      split; [exact Hkept|]. apply (Hserve (visit "/new")). reflexivity.
Defined.

Lemma Mint_failure_still_writes_token_witness :
  db (exec (Mint (mint long_url)) fresh) = db fresh
  /\ exists t,
       rw (exec (Mint (mint long_url)) fresh)
       = [RwError "internal server error" StatusInternalServerError;
          RwWriteHeader StatusOK; RwWrite t].
Proof.
  apply (Mint_failure_still_writes_token (mint long_url) fresh).
  - reflexivity.
  - vm_compute; reflexivity.
Defined.

Lemma mutations_keep_binding_witness :
  binding_inv (clock 0) (db (exec Expirer_cycle fresh))
  /\ binding_inv (clock 0) (db minted).
Proof.
  destruct (mutations_keep_binding (clock 0) fresh) as [Hsweep Hmint].
  - intros u t v keyObj Hu. vm_compute in Hu. discriminate.
  - split; [exact Hsweep|]. apply Hmint.
    intros t u _ Hu. vm_compute in Hu. discriminate.
Defined.

Lemma Mint_twice_witness :
  let s1 := exec (Mint (mint "http://a")) fresh in
  let s2 := exec (Mint (mint "http://a")) s1 in
  (rw s2 = (rw s1 ++ [RwWriteHeader StatusOK; RwWrite "abc"])%list
   \/ rw s2 = (rw s1 ++ [RwError "internal server error" StatusInternalServerError;
                         RwWriteHeader StatusOK; RwWrite "abc"])%list)
  /\ exists v1 k1 v2 k2,
       stored (db s1) "keys" "abc" = Some v1 /\ json_Unmarshal v1 = (k1, None)
       /\ stored (db s2) "keys" "abc" = Some v2 /\ json_Unmarshal v2 = (k2, None)
       /\ Url k1 = "http://a" /\ Url k2 = "http://a"
       /\ Expiry k1 <= Expiry k2.
Proof.
  apply (Mint_twice (mint "http://a") fresh "abc").
  - exact clock_monotone.
  - vm_compute; reflexivity.
Defined.

Lemma Mint_then_Serve_witness :
  "http://a" <> ""
  /\ rw (exec (Serve (visit "/abc")) minted)
     = (rw minted ++ [RwRedirect "http://a" StatusMovedPermanently])%list.
Proof.
  apply (Mint_then_Serve (mint "http://a") fresh "abc" (visit "/abc"));
    vm_compute; reflexivity.
Defined.

Lemma Serve_corrupt_is_internal_error_witness :
  rw (exec (Serve (visit "/bad")) shelf)
  = [RwError "internal server error" StatusInternalServerError]
  /\ rw (exec (Serve (visit "/new")) (exec (Serve (visit "/bad")) shelf))
     = [RwError "internal server error" StatusInternalServerError;
        RwRedirect "http://new" StatusMovedPermanently].
Proof.
  destruct (Serve_corrupt_is_internal_error (visit "/bad") shelf "not json"
              emptyKey (ErrJSON "invalid character"))
    as (Herr & _ & Hothers).
  - vm_compute; reflexivity.
  - vm_compute; reflexivity.
  - split; [exact Herr|].
    rewrite (Hothers (visit "/new") (Plain.encodeKey "http://new" (clock 0 + Hour))
               {| Url := "http://new"; Expiry := clock 0 + Hour |}).
    + by rewrite Herr.
    + vm_compute; reflexivity.
    + vm_compute; reflexivity.
    + vm_compute; reflexivity.
Defined.

Lemma Mint_fresh_token_is_base36_witness :
  exists (n : Z) (t : string),
    0 <= n < 2 ^ 63 /\ t = FormatInt n 36 /\ base36_value t = Some n
    /\ (0 < String.length t <= 13)%nat
    /\ all_chars is_base36_digit t = true
    /\ last (rw minted) = Some (RwWrite t)
    /\ (rw minted = (rw fresh ++ [RwWriteHeader StatusOK; RwWrite t])%list ->
        stored (db minted) "urls" "http://a" = Some t
        /\ exists data,
             stored (db minted) "keys" t = Some data
             /\ json_Unmarshal data
                = ({| Url := "http://a";
                      Expiry := Add (now fresh) (Hour * 24 * 30) |}, None)).
Proof.
  apply (Mint_fresh_token_is_base36 (mint "http://a") fresh).
  - reflexivity.
  - discriminate.
  - vm_compute; reflexivity.
Defined.

Lemma Serve_trims_leading_slashes_witness :
  (TrimLeft "///abc" "/" = "abc"
   /\ rw (exec (Serve (visit "/abc")) minted)
      = rw (exec (Serve (visit "///abc")) minted))
  /\ rw (exec (Serve (visit "//")) minted) = (rw minted ++ [RwNotFound])%list.
Proof.
  split.
  - destruct (Serve_trims_leading_slashes (visit "///abc") minted 3 "abc")
      as (Hkey & Hsame & _); [reflexivity|reflexivity|].
    split; [exact Hkey|]. apply (Hsame (visit "/abc") 1%nat). reflexivity.
  - destruct (Serve_trims_leading_slashes (visit "//") minted 2 "")
      as (_ & _ & Hnone); [reflexivity|reflexivity|].
    apply Hnone; [reflexivity|]. apply Mint_bolt_wf, empty_bolt_wf.
Defined.

(** C2, as stated, fails: a cycle removes the token whose value does not
    decode, but the URL bound to that token stays in bucket [urls]; the URL
    the sweeper deletes for it is the empty one that decoding left. *)
Lemma Expirer_cycle_keeps_url_of_corrupt_record :
  stored (db shelf) "keys" "bad" = Some "not json"
  /\ json_Unmarshal "not json" = (emptyKey, Some (ErrJSON "invalid character"))
  /\ stored (db shelf) "urls" "http://bad" = Some "bad"
  /\ stored (db (exec Expirer_cycle shelf)) "keys" "bad" = None
  /\ stored (db (exec Expirer_cycle shelf)) "urls" "http://bad" = Some "bad".
Proof. vm_compute. by split_and!. Qed.

(** C4, as stated, fails: with [http://a] bound to [abc], minting
    [http://b] when the random source gives [abc] again overwrites the
    record of [abc], and [http://a] is then bound to a token whose record is
    for [http://b]. *)
Lemma Mint_collision_breaks_binding :
  binding_inv (clock 0) (db minted)
  /\ ~ binding_inv (clock 0) (db (exec (Mint (mint "http://b")) minted)).
Proof.
  split.
  - apply Mint_keeps_binding.
    + intros u t v keyObj Hu. vm_compute in Hu. discriminate.
    + intros t u _ Hu. vm_compute in Hu. discriminate.
  - intros Hinv.
    specialize (Hinv "http://a" "abc"
                  (Plain.encodeKey "http://b" (Add (clock 1) (Hour * 24 * 30)))
                  {| Url := "http://b"; Expiry := Add (clock 1) (Hour * 24 * 30) |}).
    assert (Hab : "http://b" = "http://a") by (apply Hinv; vm_compute; reflexivity).
    discriminate Hab.
Qed.

(** * The rest of the server, and the client, at work *)

Import Cases.

Lemma withAuth_admits_witness :
  withAuth "s3cret" Mint (bearing "Bearer s3cret" (mint "http://a")) fresh
  = Mint (mint "http://a") fresh.
Proof.
  apply (withAuth_admits "s3cret" Mint (bearing "Bearer s3cret" (mint "http://a"))
           "Bearer" fresh); reflexivity.
Defined.

Lemma withAuth_refuses_witness :
  db (exec (withAuth "s3cret" Mint (bearing "Bearer wrong" (mint "http://a"))) fresh)
  = db fresh
  /\ draws (exec (withAuth "s3cret" Mint (bearing "Bearer wrong" (mint "http://a"))) fresh)
     = draws fresh
  /\ rw (exec (withAuth "s3cret" Mint (bearing "Bearer wrong" (mint "http://a"))) fresh)
     = [RwError "unauthorized" StatusUnauthorized]
  /\ logs (exec (withAuth "s3cret" Mint (bearing "Bearer wrong" (mint "http://a"))) fresh)
     = [LogAccess (mint "http://a") (clock 0) StatusUnauthorized].
Proof.
  apply (withAuth_refuses "s3cret" Mint (bearing "Bearer wrong" (mint "http://a")) fresh).
  intros scheme Hl Heq.
  do 7 (destruct scheme as [|? scheme]; try discriminate Hl).
  discriminate Heq.
Defined.

Lemma RandHex_secret_witness :
  exists t, (RandHex 16 fresh).1 = inr t
    /\ String.length t = 32%nat
    /\ all_chars is_hex_digit t = true
    /\ draws (exec (RandHex 16) fresh) = 3%nat.
Proof. apply (RandHex_secret 16 fresh). lia. Defined.

Lemma RandHex_bytes_witness :
  (RandHex 16 fresh).1 = inr "38340000000000383400000000003834".
Proof. apply (RandHex_bytes 16 fresh). lia. Defined.

Lemma Expirer_cycle_without_keys_witness : exec Expirer_cycle fresh = fresh.
Proof. apply (Expirer_cycle_without_keys fresh). reflexivity. Defined.

Lemma Expirer_sweeps_witness :
  (stored (db (exec (Expirer 2) shelf)) "keys" "bad" = None
   /\ stored (db (exec (Expirer 2) shelf)) "urls" "" = None)
  /\ stored (db (exec (Expirer 2) shelf)) "keys" "new"
     = Some (Plain.encodeKey "http://new" (clock 0 + Hour)).
Proof.
  split.
  - apply (Expirer_sweeps 2 shelf "bad" "not json" emptyKey
             (Some (ErrJSON "invalid character"))).
    + exact clock_monotone.
    + lia.
    + vm_compute; reflexivity.
    + vm_compute; reflexivity.
    + left. discriminate.
  - apply (Expirer_sweeps 2 shelf "new" (Plain.encodeKey "http://new" (clock 0 + Hour))
             {| Url := "http://new"; Expiry := clock 0 + Hour |} None).
    + exact clock_monotone.
    + lia.
    + vm_compute; reflexivity.
    + vm_compute; reflexivity.
    + reflexivity.
    + vm_compute; reflexivity.
Defined.

Lemma Expirer_cycle_idle_witness :
  db (exec Expirer_cycle tidy) = db tidy
  /\ logs (exec Expirer_cycle tidy) = logs tidy
  /\ ticks (exec Expirer_cycle tidy)
     = (ticks tidy
        + size ({[ "new" := Plain.encodeKey "http://new" (clock 0 + Hour)%Z ]}
                : gmap string string))%nat.
Proof.
  apply (Expirer_cycle_idle tidy
           {[ "new" := Plain.encodeKey "http://new" (clock 0 + Hour) ]}).
  - vm_compute; reflexivity.
  - intros k v Hkv. apply lookup_singleton_Some in Hkv as [<- <-].
    exists {| Url := "http://new"; Expiry := clock 0 + Hour |}.
    split; [vm_compute; reflexivity|].
    intros i Hi. rewrite map_size_singleton in Hi.
    assert (i = 0%nat) as -> by (simpl in Hi; lia). vm_compute; reflexivity.
Defined.

Lemma Expirer_cycle_unbinds_witness :
  exists k v, stored (db shelf) "keys" k = Some v
              /\ stored (db (exec Expirer_cycle shelf)) "keys" k = None
              /\ Url (json_Unmarshal v).1 = "http://old".
Proof.
  apply (Expirer_cycle_unbinds shelf "http://old" "old"); vm_compute; reflexivity.
Defined.

Lemma Mint_succeeds_iff_witness :
  rw minted = (rw fresh ++ [RwWriteHeader StatusOK; RwWrite "abc"])%list
  <-> exists data,
        json_Marshal {| Url := "http://a"; Expiry := Add (now fresh) (Hour * 24 * 30) |}
        = inr data
        /\ 0 < len "http://a" <= MaxKeySize
        /\ 0 < len "abc" <= MaxKeySize
        /\ len data <= MaxValueSize.
Proof.
  exact (Mint_succeeds_iff (mint "http://a") fresh eq_refl ltac:(discriminate)).
Defined.

Lemma Mint_success_is_not_logged_witness :
  logs minted = logs fresh /\ draws minted = 1%nat.
Proof.
  apply (Mint_success_is_not_logged (mint "http://a") fresh "abc").
  vm_compute; reflexivity.
Defined.

Lemma Mint_bad_request_witness :
  db (exec (Mint (mint "")) minted) = db minted
  /\ draws (exec (Mint (mint "")) minted) = draws minted
  /\ rw (exec (Mint (mint "")) minted)
     = (rw minted ++ [RwError "missing `url`" StatusBadRequest])%list
  /\ logs (exec (Mint (mint "")) minted)
     = (logs minted ++ [LogMissingUrl; LogAccess (mint "") (now minted) StatusBadRequest])%list.
Proof.
  apply (Mint_bad_request (mint "") minted). right. reflexivity.
Defined.

Lemma Mint_touches_two_entries_witness :
  stored (db (exec (Mint (mint "http://b")) minted)) "urls" "http://a"
  = stored (db minted) "urls" "http://a".
Proof.
  apply (Mint_touches_two_entries (mint "http://b") minted "urls" "http://a");
    discriminate.
Defined.

Lemma service_keeps_store_wf_witness :
  bolt_wf (db (exec (service "s3cret"
                       [Create (bearing "Bearer s3cret" (mint "http://a"));
                        Resolve (visit "/abc"); Sweep;
                        Create (bearing "Bearer wrong" (mint "http://b"))])
                    fresh))
  /\ tokens_wf (db (exec (service "s3cret"
                            [Create (bearing "Bearer s3cret" (mint "http://a"));
                             Resolve (visit "/abc"); Sweep;
                             Create (bearing "Bearer wrong" (mint "http://b"))])
                         fresh)).
Proof.
  apply service_keeps_store_wf.
  - exact empty_bolt_wf.
  - intros u t Hu. vm_compute in Hu. discriminate Hu.
Defined.

Lemma Mint_succeeds_in_service_witness :
  exists t, token_wf t
    /\ rw minted = (rw fresh ++ [RwWriteHeader StatusOK; RwWrite t])%list
    /\ stored (db minted) "urls" "http://a" = Some t
    /\ stored (db minted) "keys" t
       = Some (Plain.encodeKey "http://a" (Add (clock 0) (Hour * 24 * 30))).
Proof.
  apply (Mint_succeeds_in_service (mint "http://a") fresh
           (Plain.encodeKey "http://a" (Add (clock 0) (Hour * 24 * 30)))).
  - intros u t Hu. vm_compute in Hu. discriminate Hu.
  - reflexivity.
  - vm_compute. split; [reflexivity|discriminate].
  - vm_compute; reflexivity.
  - vm_compute. discriminate.
Defined.

Lemma Mint_survives_sweeps_witness :
  rw (exec (Serve (visit "/abc")) (exec (Expirer 3) minted))
  = (rw (exec (Expirer 3) minted)
     ++ [RwRedirect "http://a" StatusMovedPermanently])%list.
Proof.
  apply (Mint_survives_sweeps (mint "http://a") fresh "abc" 3 (visit "/abc")).
  - exact clock_monotone.
  - vm_compute; reflexivity.
  - reflexivity.
  - vm_compute; reflexivity.
Defined.

Lemma Expirer_then_Serve_witness :
  rw (exec (Serve (visit "/old")) (exec (Expirer 1) shelf)) = [RwNotFound]
  /\ rw (exec (Serve (visit "/bad")) (exec (Expirer 1) shelf)) = [RwNotFound].
Proof.
  split.
  - apply (Expirer_then_Serve (visit "/old") shelf
             (Plain.encodeKey "http://old" (clock 0 - 1000000000)) 1).
    + exact clock_monotone.
    + lia.
    + vm_compute; reflexivity.
    + vm_compute; reflexivity.
  - apply (Expirer_then_Serve (visit "/bad") shelf "not json" 1).
    + exact clock_monotone.
    + lia.
    + vm_compute; reflexivity.
    + vm_compute. exact I.
Defined.

Lemma Shorten_reads_status_witness :
  (Client.Shorten "s3cret" "http://a" served).1 = "https://p-b.us/abc"
  /\ (Client.Shorten "guess" "http://a" refused).1 = "http://a".
Proof.
  split.
  - destruct (Shorten_reads_status "s3cret" "http://a" served 200 "abc")
      as [Hok _]; [reflexivity|reflexivity|].
    apply Hok. lia.
  - destruct (Shorten_reads_status "guess" "http://a" refused 401 "unauthorized")
      as [_ Hno]; [reflexivity|reflexivity|].
    apply Hno. lia.
Defined.

Lemma Shorten_authorizes_witness :
  exists req,
    Client.sent (Client.Shorten "s3cret" "http://a" served).2 = [req]
    /\ withAuth "s3cret" Mint (Client.received req (mint "http://a")) fresh
       = Mint (mint "http://a") fresh.
Proof.
  destruct (Shorten_authorizes "s3cret" "http://a" served "s3cret" Mint
              (mint "http://a") fresh) as (req & Hsent & Hyes & _); [reflexivity|].
  exists req. split; [exact Hsent|]. by apply Hyes.
Defined.

Lemma Shorten_asks_for_subject_witness :
  exists req query,
    Client.sent (Client.Shorten "s3cret" "http://a/?q=x y" served).2 = [req]
    /\ Client.Method req = "GET"
    /\ Client.RawURL req = "https://p-b.us/mint?url=" +:+ query
    /\ Client.QueryUnescape query = Some "http://a/?q=x y".
Proof.
  apply (Shorten_asks_for_subject "s3cret" "http://a/?q=x y" served). reflexivity.
Defined.
